(** * resolve-url-loader: the loader entry point and its error handling

    A shallow embedding of [packages/resolve-url-loader/index.js].  The
    loader function [resolveUrlLoader] is modelled as a computation in a
    small log-and-exception monad: the log records the calls made on the
    webpack loader context ([emitError], [emitWarning], [cacheable],
    [async]) in the order they happen, and an exception is a JavaScript
    value thrown and not yet caught.  Everything the loader [require]s from
    outside the repository (node's [path] and [fs], [JSON], loader-utils,
    adjust-sourcemap-loader, source-map) is a field of the record [World]. *)

From Stdlib Require Import ZArith Ascii.
From stdpp Require Import gmap strings list fin_maps pretty.

(** ** JavaScript values held by the options object *)

Inductive JsVal :=
  | JUndefined
  | JNull
  | JBool (b : bool)
  | JNum (n : Z)
  | JStr (s : string)
  | JFun (id : nat)     (* a function, compared by identity *)
  | JObj (id : nat).    (* any other object, compared by identity *)

#[global] Instance JsVal_eq_dec : EqDecision JsVal.
Proof. solve_decision. Defined.

(** [ToBoolean]: what [if (v)], [!v], [v && ...] test. *)
Definition truthy (v : JsVal) : bool :=
  match v with
  | JUndefined | JNull => false
  | JBool b => b
  | JNum n => negb (n =? 0)%Z
  | JStr s => negb (String.eqb s EmptyString)
  | JFun _ | JObj _ => true
  end.

(** [a === b] on these values. *)
Definition strict_eq (a b : JsVal) : bool := bool_decide (a = b).

Inductive JsType := TyUndefined | TyObject | TyBoolean | TyNumber | TyString | TyFunction.

(** [typeof v] *)
Definition typeof (v : JsVal) : JsType :=
  match v with
  | JUndefined => TyUndefined
  | JNull | JObj _ => TyObject
  | JBool _ => TyBoolean
  | JNum _ => TyNumber
  | JStr _ => TyString
  | JFun _ => TyFunction
  end.

Definition is_function (v : JsVal) : bool :=
  match v with JFun _ => true | _ => false end.

(** A plain object with string keys, such as the options object. *)
Abbreviation JsObject := (gmap string JsVal).

(** [o.k]: a missing property reads as [undefined]. *)
Definition prop (o : JsObject) (k : string) : JsVal := default JUndefined (o !! k).

(** One step of lodash's [defaults]: a property of the source is assigned
    where the destination's property resolves to [undefined] (missing, or
    present with the value [undefined]). *)
Definition defaults_pick (d s : option JsVal) : option JsVal :=
  match d with
  | Some JUndefined | None =>
      match s with
      | Some v => Some v
      | None => d
      end
  | Some v => Some v
  end.

Definition defaults2 (dest src : JsObject) : JsObject := merge defaults_pick dest src.

(** [defaults(dest, src1, src2, ...)]: sources are applied from left to
    right; a source that is not an object ([false], [undefined]) gives
    nothing. *)
Definition defaults (dest : JsObject) (srcs : list (option JsObject)) : JsObject :=
  foldl (fun acc s => match s with Some o => defaults2 acc o | None => acc end) dest srcs.

(** ** Strings *)

Section Strings.

Definition newline : ascii := "010"%char.

(** [s.split(c)] for a one-character separator: always at least one piece. *)
Fixpoint split_on (c : ascii) (s : string) : list string :=
  match s with
  | EmptyString => [EmptyString]
  | String a rest =>
      if Ascii.eqb a c then EmptyString :: split_on c rest
      else match split_on c rest with
           | [] => [String a EmptyString]
           | p :: ps => String a p :: ps
           end
  end.

(** [l.join(sep)] *)
Fixpoint join_with (sep : string) (l : list string) : string :=
  match l with
  | [] => EmptyString
  | [x] => x
  | x :: rest => x +:+ sep +:+ join_with sep rest
  end.

Fixpoint trim_start (s : string) : string :=
  match s with
  | String a rest => if Ascii.is_space a then trim_start rest else s
  | EmptyString => EmptyString
  end.

(** the string without its trailing white space *)
Fixpoint trim_end (s : string) : string :=
  match s with
  | EmptyString => EmptyString
  | String a rest =>
      match trim_end rest with
      | EmptyString => if Ascii.is_space a then EmptyString else String a EmptyString
      | r => String a r
      end
  end.

(** [s.trim()] *)
Definition trim (s : string) : string := trim_end (trim_start s).

Definition is_empty (s : string) : bool :=
  match s with EmptyString => true | _ => false end.

Definition starts_with (p s : string) : bool := String.prefix p s.

Definition is_alpha (a : ascii) : bool :=
  let n := Ascii.nat_of_ascii a in
  ((65 <=? n) && (n <=? 90)) || ((97 <=? n) && (n <=? 122)).

Definition is_digit (a : ascii) : bool :=
  let n := Ascii.nat_of_ascii a in (48 <=? n) && (n <=? 57).

(** the class [\w] of a regular expression *)
Definition is_word_char (a : ascii) : bool :=
  is_alpha a || is_digit a || Ascii.eqb a "_"%char.

(** [/^\./.test(s)] *)
Definition test_leading_dot (s : string) : bool :=
  match s with
  | String a _ => Ascii.eqb a "."%char
  | EmptyString => false
  end.

(** [/^\w+/.test(s)] *)
Definition test_leading_word (s : string) : bool :=
  match s with
  | String a _ => is_word_char a
  | EmptyString => false
  end.

End Strings.

(** ** Source maps, positions and url tokens (the data of the program) *)

(** A position in the generated CSS text: 1-based line, 0-based column. *)
Record Position := { line : nat; column : nat }.

Record OriginalLocation := {
  absoluteFilePath : string;
  orig_line : nat;
  orig_column : nat
}.

(** One segment of a source map: a generated position, the index of the
    source file in [sources], and the position in that file. *)
Record RawMapping := {
  rm_generated : Position;
  rm_source : nat;
  rm_line : nat;
  rm_column : nat
}.

(** A source map as an object (what [JSON.parse] gives for the string form). *)
Record SourceMap := {
  sm_version : Z;
  sm_sources : list string;
  sm_mappings : list RawMapping
}.

(** An entry of the look-up structure built from a source map. *)
Record Mapping := { generated : Position; original : OriginalLocation }.

(** What [new SourceMapConsumer(map)] holds. *)
Record SourceMapIndex := { entries : list Mapping }.

(** A path literal found inside [url(...)]. *)
Record UrlToken := {
  rawText : string;
  startOffset : nat;
  endOffset : nat;
  quoted : bool
}.

(** ** Exceptions and the calls made on the loader context *)

(** A thrown value, or the [exception] argument of [handleException]. *)
Inductive JsExn :=
  | ExnString (s : string)
  | ExnError (message : string) (stack : option string)   (* [instanceof Error] *)
  | ExnOther                   (* a number or a boolean: its [message] is [undefined] *)
  | ExnObject (message : JsExn) (* an object that is no Error, with its [message] property *)
  | ExnNullish.                (* [undefined] or [null] *)

(** The calls on [loader] that the outside observes, in order. *)
Inductive Event :=
  | EmitError (message : string)
  | EmitWarning (message : string)
  | Cacheable
  | Async.

Definition is_error (e : Event) : bool := match e with EmitError _ => true | _ => false end.
Definition is_warning (e : Event) : bool := match e with EmitWarning _ => true | _ => false end.
Definition is_diagnostic (e : Event) : bool := is_error e || is_warning e.

(** ** The engine interface and the outside world *)

(** The [format] option passed to adjust-sourcemap-loader. *)
Inductive Format := FormatAbsolute | FormatSourceRelative.

(** The callback given to the engine as [transformDeclaration]: from the
    look-up structure (if any), the position at which a declaration value
    starts and the value, the rewritten value and the diagnostics raised. *)
Definition DeclarationTransformer : Type :=
  option SourceMapIndex → Position → string → string * list Event.

(** The third argument of an engine. *)
Record EngineParams := {
  outputSourceMap : bool;
  transformDeclaration : DeclarationTransformer;
  absSourceMap : option SourceMap;
  sourceMapConsumer : option SourceMapIndex
}.

(** What an engine resolves to: [{content, map}]. *)
Record Reworked := { rw_content : string; rw_map : option SourceMap }.

(** An engine call either throws before it returns, or returns a value or
    promise that settles as fulfilled or rejected. *)
Inductive EngineOutcome :=
  | EngineThrows (e : JsExn)
  | EngineRejects (e : JsExn)
  | EngineResolves (r : Reworked).

(** [engine(sourceFile, sourceContent, params)], with the diagnostics raised
    by the callback while the engine ran. *)
Definition Engine : Type := string → string → EngineParams → list Event * EngineOutcome.

(** [join(originalDirectory, uri, candidates)]: the chosen path, or nothing
    when the strategy throws or finds no usable path. *)
Definition JoinStrategy : Type := string → string → list string → option string.

(** The details of the file being processed, [this] of the loader. *)
Record Loader := {
  context : string;
  resourcePath : string;
  loader_sourceMap : JsVal;
  loader_query : option JsObject;                    (* the options given to the loader *)
  loader_options : option (gmap string JsObject)     (* webpack 1: the [options] of the configuration *)
}.

(** Everything outside the repository that the loader calls. *)
Record World := {
  path_resolve : string → string;
  path_join : list string → string;
  path_relative : string → string → string;
  fs_existsSync : string → bool;
  fs_isDirectory : string → bool;                    (* [fs.statSync(p).isDirectory()] *)
  dirname__ : string;                                (* [__dirname] *)
  JSON_parse : string → JsExn + SourceMap;
  getOptions : Loader → JsExn + option JsObject;     (* [loaderUtils.getOptions] *)
  adjustSourceMap : Loader → Format → option SourceMap → JsExn + SourceMap;
  SourceMapConsumer_new : SourceMap → JsExn + SourceMapIndex;
  call_function : nat → JoinStrategy;                (* the behaviour of a function value *)
  require_engine : string → Engine                   (* [require(enginePath)] *)
}.

(** ** The source-map index (spec section 4.1) *)

Definition pos_leb (p q : Position) : bool :=
  (line p <? line q) || ((line p =? line q) && (column p <=? column q)).

(** Modelled from the spec: the look-up structure that source-map's
    [SourceMapConsumer] builds; the library is not part of the sources.
    Every segment of the map becomes an entry with the name of its source
    file; a segment whose source index is out of range has no entry. *)
Definition index_of_map (m : SourceMap) : SourceMapIndex :=
  {| entries :=
       omap (fun r =>
               (fun f => {| generated := rm_generated r;
                            original := {| absoluteFilePath := f;
                                           orig_line := rm_line r;
                                           orig_column := rm_column r |} |})
                 <$> sm_sources m !! rm_source r)
            (sm_mappings m) |}.

(** the later of the best entry so far and [e], where [e] does not exceed [q] *)
Definition closer (q : Position) (best : option Mapping) (e : Mapping) : option Mapping :=
  if pos_leb (generated e) q then
    match best with
    | Some b => if pos_leb (generated b) (generated e) then Some e else Some b
    | None => Some e
    end
  else best.

(** Modelled from the spec: [locate] of section 4.1, source-map's
    [originalPositionFor]: the entry whose generated position is the
    greatest one not exceeding the query position, absent when no entry
    precedes it. *)
Definition locate (idx : SourceMapIndex) (q : Position) : option OriginalLocation :=
  original <$> foldl (closer q) None (entries idx).

(** ** The path resolver (spec section 4.2) *)

Record ResolutionContext := {
  contextDirectory : string;
  root : option string;
  includeRoot : bool;
  keepQuery : bool;
  absolute : bool;
  fail : bool;
  silent : bool;
  joinStrategy : JoinStrategy;
  relativize : string → string
}.

Inductive Resolution := ResolvedPath (p : string) | Unresolved.

Definition is_scheme_char (a : ascii) : bool :=
  is_alpha a || is_digit a || Ascii.eqb a "+"%char || Ascii.eqb a "."%char || Ascii.eqb a "-"%char.

(** the rest of a scheme up to its colon *)
Fixpoint scheme_tail (s : string) : bool :=
  match s with
  | EmptyString => false
  | String a rest =>
      if Ascii.eqb a ":"%char then true
      else if is_scheme_char a then scheme_tail rest else false
  end.

(** Modelled from the spec: "has a protocol scheme, e.g. data:, http:, //";
    the test of lib/value-processor.js is not part of the sources. *)
Definition has_scheme (s : string) : bool :=
  starts_with "//" s ||
  match s with
  | String a rest => is_alpha a && scheme_tail rest
  | EmptyString => false
  end.

(** Modelled from the spec: "is an absolute filesystem path already". *)
Definition is_absolute_path (s : string) : bool := starts_with "/" s.

Definition is_absolute_url (s : string) : bool := has_scheme s || is_absolute_path s.

(** the path of a url and its trailing [?...] or [#...] suffix *)
Fixpoint split_query (s : string) : string * string :=
  match s with
  | EmptyString => (EmptyString, EmptyString)
  | String a rest =>
      if Ascii.eqb a "?"%char || Ascii.eqb a "#"%char then (EmptyString, s)
      else let '(u, q) := split_query rest in (String a u, q)
  end.

(** the part of [s] before its last slash, when it has one *)
Fixpoint before_last_slash (s : string) : option string :=
  match s with
  | EmptyString => None
  | String a rest =>
      match before_last_slash rest with
      | Some d => Some (String a d)
      | None => if Ascii.eqb a "/"%char then Some EmptyString else None
      end
  end.

(** [path.dirname] on a posix path *)
Definition dirname (s : string) : string :=
  match before_last_slash s with
  | Some EmptyString => "/"
  | Some d => d
  | None => "."
  end.

Definition naive_join (dir uri : string) : string := dir +:+ "/" +:+ uri.

(** Modelled from the spec: the default join strategy of
    lib/default-join.js, which is not part of the sources: it "returns [the
    naive join] verbatim regardless of existence". *)
Definition defaultJoin_strategy : JoinStrategy :=
  fun dir uri candidates => Some (naive_join dir uri).

(** Modelled from the spec: [resolve] of section 4.2, steps 1 to 5; it is
    part of lib/value-processor.js, which is not part of the sources. *)
Definition resolve (originalDirectory : string) (t : UrlToken) (ctx : ResolutionContext)
  : Resolution :=
  if is_absolute_url (rawText t) then ResolvedPath (rawText t)
  else
    let '(uri, suffix) := split_query (rawText t) in
    let candidates :=
      naive_join originalDirectory uri ::
      (if includeRoot ctx
       then match root ctx with Some r => [naive_join r uri] | None => [] end
       else []) in
    match joinStrategy ctx originalDirectory uri candidates with
    | None => Unresolved
    | Some p =>
        let emitted := if absolute ctx then p else relativize ctx p in
        ResolvedPath (emitted +:+ (if keepQuery ctx then suffix else EmptyString))
    end.

(** ** The declaration transformer (spec section 4.3) *)

(** A declaration value cut into the text that stays and the path literals. *)
Inductive Piece := Lit (s : string) | Tok (t : UrlToken).

Inductive ScanMode :=
  | Text (k : nat)                                 (* [k] characters of "url(" seen *)
  | AfterOpen                                      (* after "url(", before the path *)
  | Quoted (q : ascii) (start : nat) (path : string)
  | Bare (start : nat) (path : string).

Definition snoc (s : string) (a : ascii) : string := s +:+ String a EmptyString.

Definition is_quote (a : ascii) : bool :=
  Ascii.eqb a "'"%char || Ascii.eqb a "034"%char.

Definition restart (a : ascii) : ScanMode :=
  if Ascii.eqb a "u"%char then Text 1 else Text 0.

(** the next mode while looking for "url(" *)
Definition next_text (k : nat) (a : ascii) : ScanMode :=
  match k with
  | 1 => if Ascii.eqb a "r"%char then Text 2 else restart a
  | 2 => if Ascii.eqb a "l"%char then Text 3 else restart a
  | 3 => if Ascii.eqb a "("%char then AfterOpen
         else if Ascii.is_space a then Text 3 else restart a
  | _ => restart a
  end.

(** the characters read in a mode that are not yet part of a piece *)
Definition pending (m : ScanMode) : string :=
  match m with
  | Quoted _ _ path | Bare _ path => path
  | _ => EmptyString
  end.

(** Modelled from the spec: the scan of a value for its [url(...)] tokens,
    "quoted or unquoted; whitespace-tolerant"; the pattern of
    lib/value-processor.js is not part of the sources.  [lit] is the text
    read since the last token and [off] the offset of the next character. *)
Fixpoint scan (m : ScanMode) (lit : string) (off : nat) (s : string) : list Piece :=
  match s with
  | EmptyString => [Lit (lit +:+ pending m)]
  | String a rest =>
      match m with
      | Text k => scan (next_text k a) (snoc lit a) (S off) rest
      | AfterOpen =>
          if Ascii.is_space a then scan AfterOpen (snoc lit a) (S off) rest
          else if is_quote a then scan (Quoted a (S off) EmptyString) (snoc lit a) (S off) rest
          else if Ascii.eqb a ")"%char then scan (Text 0) (snoc lit a) (S off) rest
          else scan (Bare off (String a EmptyString)) lit (S off) rest
      | Quoted q start path =>
          if Ascii.eqb a q then
            Lit lit
              :: Tok {| rawText := path; startOffset := start; endOffset := off; quoted := true |}
              :: scan (Text 0) (String a EmptyString) (S off) rest
          else scan (Quoted q start (snoc path a)) lit (S off) rest
      | Bare start path =>
          if Ascii.eqb a ")"%char || Ascii.is_space a then
            Lit lit
              :: Tok {| rawText := path; startOffset := start; endOffset := off; quoted := false |}
              :: scan (Text 0) (String a EmptyString) (S off) rest
          else scan (Bare start (snoc path a)) lit (S off) rest
      end
  end.

Definition scan_value (value : string) : list Piece := scan (Text 0) EmptyString 0 value.

(** the tokens of a value *)
Definition tokens (value : string) : list UrlToken :=
  omap (fun p => match p with Tok t => Some t | Lit _ => None end) (scan_value value).

(** Modelled from the spec: the severity rule of section 7 for a soft
    failure: a warning by default, an error if [fail] is set, nothing if
    [silent] is set and [fail] is not. *)
Definition soft_report (ctx : ResolutionContext) (message : string) : list Event :=
  if fail ctx then [EmitError message]
  else if silent ctx then []
  else [EmitWarning message].

(** the position of a token: its offset added to the start of the declaration *)
Definition token_position (start : Position) (t : UrlToken) : Position :=
  {| line := line start; column := column start + startOffset t |}.

(** Modelled from the spec: what section 4.3 does for each token; part of
    lib/value-processor.js, which is not part of the sources.  The path
    resolver runs only if an original location is found; without one the
    token is left as it is, and a diagnostic is raised unless there is no
    source map at all. *)
Definition rewrite_token (idx : option SourceMapIndex) (ctx : ResolutionContext)
    (start : Position) (t : UrlToken) : string * list Event :=
  match idx with
  | None => (rawText t, [])
  | Some i =>
      match locate i (token_position start t) with
      | None => (rawText t, soft_report ctx ("no source mapping for " +:+ rawText t))
      | Some loc =>
          match resolve (dirname (absoluteFilePath loc)) t ctx with
          | ResolvedPath p => (p, [])
          | Unresolved => (rawText t, soft_report ctx ("cannot resolve " +:+ rawText t))
          end
      end
  end.

Definition rewrite_piece (idx : option SourceMapIndex) (ctx : ResolutionContext)
    (start : Position) (p : Piece) : string * list Event :=
  match p with
  | Lit s => (s, [])
  | Tok t => rewrite_token idx ctx start t
  end.

(** all the strings of a list, one after the other *)
Definition concat_strings (l : list string) : string := foldr String.append EmptyString l.

(** Modelled from the spec: [transform] of section 4.3, the callback that
    lib/value-processor.js returns: only the path substrings change. *)
Definition transform (ctx : ResolutionContext) : DeclarationTransformer :=
  fun idx start value =>
    let out := rewrite_piece idx ctx start <$> scan_value value in
    (concat_strings (fst <$> out), concat (snd <$> out)).

(** ** The engine (spec section 4.4, "Transforming") *)

Section EngineModel.

(** The map that the engine computes for its output is not specified. *)
Variable engine_map : string → string → option SourceMap → SourceMap.

(** Modelled from the spec: an engine of lib/engine, none of which is
    part of the sources.  It hands every line of the document to the
    callback with the position at which the line starts, keeps all other
    content, and resolves to the content and, if an output map is asked
    for, a map. *)
Definition engine_model : Engine :=
  fun sourceFile sourceContent params =>
    let out :=
      imap (fun i l =>
              transformDeclaration params (sourceMapConsumer params)
                {| line := S i; column := 0 |} l)
           (split_on newline sourceContent) in
    (concat (snd <$> out),
     EngineResolves
       {| rw_content := join_with (String newline EmptyString) (fst <$> out);
          rw_map := if outputSourceMap params
                    then Some (engine_map sourceFile sourceContent (absSourceMap params))
                    else None |}).

End EngineModel.

(** ** The loader monad: a log of events and an exception *)

Definition M (A : Type) : Type := list Event → (JsExn + A) * list Event.

#[global] Instance M_ret : MRet M := fun A a log => (inr a, log).

#[global] Instance M_bind : MBind M := fun A B k m log =>
  match m log with
  | (inl e, log') => (inl e, log')
  | (inr a, log') => k a log'
  end.

#[global] Instance M_fmap : FMap M := fun A B f m log =>
  match m log with
  | (inl e, log') => (inl e, log')
  | (inr a, log') => (inr (f a), log')
  end.

Definition throw {A} (e : JsExn) : M A := fun log => (inl e, log).

Definition emit (e : Event) : M unit := fun log => (inr tt, log ++ [e]).

Definition emit_all (es : list Event) : M unit := fun log => (inr tt, log ++ es).

(** [try { m } catch (e) { h e }] *)
Definition try_catch {A} (m : M A) (h : JsExn → M A) : M A := fun log =>
  match m log with
  | (inl e, log') => h e log'
  | r => r
  end.

(** a call into the outside world that returns or throws *)
Definition lift {A} (r : JsExn + A) : M A :=
  match r with
  | inl e => throw e
  | inr a => mret a
  end.

(** ** [index.js] *)

(** the [TypeError] of a property read on [undefined] *)
Definition TypeError (what : string) : JsExn :=
  ExnError ("Cannot read property '" +:+ what +:+ "' of undefined") None.

(** [String(v)], as string concatenation and [RegExp.test] coerce *)
Definition to_js_string (v : JsVal) : string :=
  match v with
  | JUndefined => "undefined"
  | JNull => "null"
  | JBool true => "true"
  | JBool false => "false"
  | JNum n => pretty n
  | JStr s => s
  | JFun _ => "function () {}"
  | JObj _ => "[object Object]"
  end.

(** a name between double quotes *)
Definition dq (name : string) : string :=
  String "034"%char (name +:+ String "034"%char EmptyString).

Definition PACKAGE_NAME : string := "resolve-url-loader".

(** [camelcase(PACKAGE_NAME)] *)
Definition camelcase_PACKAGE_NAME : string := "resolveUrlLoader".

(** [require('./lib/default-join')] as a value *)
Definition defaultJoin : JsVal := JFun 0.

(** the argument [sourceMap] of the loader *)
Inductive SourceMapArg :=
  | NoMap                        (* [undefined] or [null] *)
  | MapString (s : string)
  | MapObject (m : SourceMap).

Definition truthy_map (a : SourceMapArg) : bool :=
  match a with
  | NoMap => false
  | MapString s => negb (is_empty s)
  | MapObject _ => true
  end.

(** How a call of the loader ends. *)
Inductive Completion :=
  | Returned (content : string)                          (* [return content] *)
  | Delivered (content : string) (map : option SourceMap) (* [callback(null, content[, map])] *)
  | Unhandled (e : JsExn).      (* the promise chain ends rejected, the callback is never called *)

(** [exception.stack.split('\n')[1].trim()] *)
Definition second_stack_line (stack : option string) : JsExn + string :=
  match stack with
  | None => inl (TypeError "split")
  | Some s =>
      match split_on newline s !! 1 with
      | Some l => inr (trim l)
      | None => inl (TypeError "trim")
      end
  end.

(** [[label].concat(rest).filter(Boolean).join('\n  ')] behind the prefix *)
Definition format_message (label : string) (rest : list string) : string :=
  "  resolve-url-loader cannot operate: " +:+
  join_with (String newline "  ")
            (List.filter (fun s => negb (is_empty s)) (label :: rest)).

(** the initialiser of [rest] in [handleException]: a string gives itself,
    an [Error] its message and the second line of its stack, anything else
    nothing *)
Definition exception_details (exception : JsExn) : JsExn + list string :=
  match exception with
  | ExnString s => inr [s]
  | ExnError message stack =>
      match second_stack_line stack with
      | inl e => inl e
      | inr l => inr [message; l]
      end
  | ExnOther | ExnObject _ | ExnNullish => inr []
  end.

(** [handleException(label, exception, isCritical)].  [options] is the
    variable of the enclosing function, [undefined] until it is assigned;
    [content] is the argument of the loader. *)
Definition handleException (options : option JsObject) (content : string)
    (label : string) (exception : JsExn) (isCritical : bool) : M string :=
  rest ← lift (exception_details exception);
  let message := format_message label rest in
  (if isCritical then emit (EmitError message)
   else match options with
        | None => throw (TypeError "fail")
        | Some o =>
            if truthy (prop o "fail") then emit (EmitError message)
            else if negb (truthy (prop o "silent")) then emit (EmitWarning message)
            else mret tt
        end);;
  mret content.

(** [exception.message]: the property of an [Error] or of an object,
    [undefined] on a string, a number or a boolean, and a [TypeError] on
    [undefined] and [null] *)
Definition exn_message (e : JsExn) : JsExn + JsExn :=
  match e with
  | ExnError message _ => inr (ExnString message)
  | ExnObject message => inr message
  | ExnString _ | ExnOther => inr ExnNullish
  | ExnNullish => inl (TypeError "message")
  end.

(** the behaviour of the value of the [join] option *)
Definition join_of (w : World) (v : JsVal) : JoinStrategy :=
  match v with
  | JFun 0 => defaultJoin_strategy
  | JFun id => call_function w id
  | _ => fun _ _ _ => None
  end.

(** Modelled from the spec: [valueProcessor(loader.context, options)] of
    lib/value-processor.js, which is not part of the sources: the
    declaration transformer for the configuration that section 3 derives
    from the options. *)
Definition valueProcessor (w : World) (directory : string) (options : JsObject)
  : DeclarationTransformer :=
  transform
    {| contextDirectory := directory;
       root := match prop options "root" with
               | JStr r => if is_empty r then None else Some (path_resolve w r)
               | _ => None
               end;
       includeRoot := truthy (prop options "includeRoot");
       keepQuery := truthy (prop options "keepQuery");
       absolute := truthy (prop options "absolute");
       fail := truthy (prop options "fail");
       silent := truthy (prop options "silent");
       joinStrategy := join_of w (prop options "join");
       relativize := path_relative w directory |}.

(** the third argument of [defaults] in [resolveUrlLoader] *)
Definition default_options (loader : Loader) : JsObject :=
  list_to_map
    [ ("absolute", JBool false);
      ("sourceMap", loader_sourceMap loader);
      ("engine", JStr "rework");
      ("fail", JBool false);
      ("silent", JBool false);
      ("keepQuery", JBool false);
      ("attempts", JNum 1);
      ("join", defaultJoin);
      ("debug", JBool false);
      ("root", JNull);
      ("includeRoot", JBool false) ].

(** [defaults(loaderUtils.getOptions(loader),
             !!loader.options && loader.options[camelcase(PACKAGE_NAME)],
             {...})] for a query that [getOptions] returned *)
Definition merge_options (loader : Loader) (query : option JsObject) : JsObject :=
  defaults (default ∅ query)
           [ loader_options loader ≫= (fun o => o !! camelcase_PACKAGE_NAME);
             Some (default_options loader) ].

(** [(typeof options.root === 'string') && path.resolve(options.root) || undefined] *)
Definition resolvedRoot (w : World) (options : JsObject) : option string :=
  match prop options "root" with
  | JStr r => let p := path_resolve w r in if is_empty p then None else Some p
  | _ => None
  end.

(** [resolvedRoot && fs.existsSync(resolvedRoot) && fs.statSync(resolvedRoot).isDirectory()] *)
Definition isValidRoot (w : World) (options : JsObject) : bool :=
  match resolvedRoot w options with
  | Some p => fs_existsSync w p && fs_isDirectory w p
  | None => false
  end.

(** [/^\w+/.test(options.engine) && path.join(__dirname, 'lib', 'engine', options.engine + '.js')] *)
Definition enginePath (w : World) (options : JsObject) : option string :=
  let engine := to_js_string (prop options "engine") in
  if test_leading_word engine
  then Some (path_join w [dirname__ w; "lib"; "engine"; engine +:+ ".js"])
  else None.

(** [fs.existsSync(enginePath)] *)
Definition isValidEngine (w : World) (options : JsObject) : bool :=
  match enginePath w options with
  | Some p => fs_existsSync w p
  | None => false
  end.

Section Loader.

Variable w : World.
Variable loader : Loader.
Variable content : string.

(** [onSuccess(reworked)] *)
Definition onSuccess (options : JsObject) (reworked : Reworked) : M Completion :=
  if truthy (prop options "sourceMap") then
    finalMap ← lift (adjustSourceMap w loader FormatSourceRelative (rw_map reworked));
    mret (Delivered (rw_content reworked) (Some finalMap))
  else
    mret (Delivered (rw_content reworked) None).

(** [onFailure(error)] *)
Definition onFailure (options : JsObject) (error : JsExn) : M Completion :=
  c ← handleException (Some options) content "Error in CSS" error false;
  mret (Delivered c None).

(** [Promise.resolve(engine(...)).then(onSuccess).catch(onFailure)]: the
    engine is called before the promise exists, so what it throws leaves
    the loader; a rejection of [onFailure] itself is handled by nobody. *)
Definition process (options : JsObject) (path : string)
    (absSourceMap : option SourceMap) (sourceMapConsumer : option SourceMapIndex)
  : M Completion :=
  let '(raised, outcome) :=
    require_engine w path (resourcePath loader) content
      {| outputSourceMap := truthy (prop options "sourceMap");
         transformDeclaration := valueProcessor w (context loader) options;
         absSourceMap := absSourceMap;
         sourceMapConsumer := sourceMapConsumer |} in
  emit_all raised;;
  match outcome with
  | EngineThrows e => throw e
  | EngineResolves reworked =>
      try_catch (try_catch (onSuccess options reworked) (onFailure options))
                (fun e => mret (Unhandled e))
  | EngineRejects e =>
      try_catch (onFailure options e) (fun e' => mret (Unhandled e'))
  end.

(** lines 107 to 124: choose a CSS engine and process async *)
Definition choose_engine (options : JsObject)
    (absSourceMap : option SourceMap) (sourceMapConsumer : option SourceMapIndex)
  : M Completion :=
  if negb (isValidEngine w options) then
    Returned <$> handleException (Some options) content "loader misconfiguration"
                   (ExnString (dq "engine" +:+ " option is not valid")) true
  else
    match enginePath w options with
    | Some path =>
        emit Async;;
        process options path absSourceMap sourceMapConsumer
    | None => throw (ExnError "Cannot find module" None)
    end.

(** lines 80 to 105: the incoming source map *)
Definition incoming_source_map (options : JsObject) (sourceMap : SourceMapArg)
  : M Completion :=
  let adjust (m : SourceMap) : M Completion :=
    match adjustSourceMap w loader FormatAbsolute (Some m) with
    | inl exception =>
        message ← lift (exn_message exception);
        Returned <$> handleException (Some options) content "source-map error"
                       message false
    | inr absSourceMap =>
        sourceMapConsumer ← lift (SourceMapConsumer_new w absSourceMap);
        choose_engine options (Some absSourceMap) (Some sourceMapConsumer)
    end in
  if truthy_map sourceMap then
    match sourceMap with
    | MapString s =>
        match JSON_parse w s with
        | inl _ =>
            Returned <$> handleException (Some options) content "source-map error"
                           (ExnString "cannot parse source-map string (from less-loader?)")
                           false
        | inr m => adjust m
        end
    | MapObject m => adjust m
    | NoMap => choose_engine options None None
    end
  else choose_engine options None None.

(** [resolveUrlLoader(content, sourceMap)] with [this = loader] *)
Definition resolveUrlLoader (sourceMap : SourceMapArg) : M Completion :=
  if test_leading_dot (context loader) then
    Returned <$> handleException None content "webpack misconfiguration"
                   (ExnString "loader.context is relative, expected absolute") true
  else
    query ← lift (getOptions w loader);
    let options := merge_options loader query in
    if strict_eq (prop options "join") defaultJoin
       && negb (strict_eq (prop options "attempts") (JNum 1)) then
      Returned <$> handleException (Some options) content "loader misconfiguration"
                     (ExnString (dq "attempts" +:+ " option now requires " +:+ dq "join"
                                 +:+ " function")) true
    else if negb (is_function (prop options "join")) then
      Returned <$> handleException (Some options) content "loader misconfiguration"
                     (ExnString (dq "join" +:+ " option must be a Function")) true
    else if truthy (prop options "root") && negb (isValidRoot w options) then
      Returned <$> handleException (Some options) content "loader misconfiguration"
                     (ExnString (dq "root"
                                 +:+ " option does not resolve to a valid directory")) true
    else
      emit Cacheable;;
      incoming_source_map options sourceMap.

(** One call of the loader from outside: what it threw or how it ended,
    and the calls it made on [loader]. *)
Definition run (sourceMap : SourceMapArg) : (JsExn + Completion) * list Event :=
  resolveUrlLoader sourceMap [].

End Loader.

(** ** Notions used in the statements *)

(** the text of a piece as it was read *)
Definition piece_text (p : Piece) : string :=
  match p with Lit s => s | Tok t => rawText t end.

(** The severity rule of [handleException] for an exception that is not
    critical: an error if [fail] is set, else a warning unless [silent]. *)
Definition severity_report (options : JsObject) (message : string) : list Event :=
  if truthy (prop options "fail") then [EmitError message]
  else if negb (truthy (prop options "silent")) then [EmitWarning message]
  else [].

(** [attempts] differs from 1 while [join] is the default (line 61) *)
Definition attempts_without_join (options : JsObject) : bool :=
  strict_eq (prop options "join") defaultJoin
  && negb (strict_eq (prop options "attempts") (JNum 1)).

(** [root] is given and is no directory (line 73) *)
Definition invalid_root (w : World) (options : JsObject) : bool :=
  truthy (prop options "root") && negb (isValidRoot w options).

(** one of the three checks of lines 60 to 75 fails *)
Definition rejected_early (w : World) (options : JsObject) : bool :=
  attempts_without_join options
  || negb (is_function (prop options "join"))
  || invalid_root w options.

(** What lines 80 to 105 leave in [absSourceMap] and [sourceMapConsumer]
    when nothing fails there; [None] when something does. *)
Definition load_map (w : World) (loader : Loader) (sourceMap : SourceMapArg)
  : option (option SourceMap * option SourceMapIndex) :=
  let adjust (m : SourceMap) :=
    match adjustSourceMap w loader FormatAbsolute (Some m) with
    | inr a =>
        match SourceMapConsumer_new w a with
        | inr i => Some (Some a, Some i)
        | inl _ => None
        end
    | inl _ => None
    end in
  if truthy_map sourceMap then
    match sourceMap with
    | MapString s =>
        match JSON_parse w s with
        | inr m => adjust m
        | inl _ => None
        end
    | MapObject m => adjust m
    | NoMap => Some (None, None)
    end
  else Some (None, None).

(** What the [catch] of line 100 reads of an exception of the codec: the
    details of [exception.message], or what is thrown while it reads them
    (by [exception.message] itself on [undefined] and [null], by the
    handler on a message that is an [Error] with a short stack). *)
Definition codec_details (e : JsExn) : JsExn + list string :=
  match exn_message e with
  | inl thrown => inl thrown
  | inr message => exception_details message
  end.

(** the call of the engine in [process] *)
Definition engine_call (w : World) (loader : Loader) (content : string)
    (options : JsObject) (path : string)
    (abs : option SourceMap) (idx : option SourceMapIndex) : list Event * EngineOutcome :=
  require_engine w path (resourcePath loader) content
    {| outputSourceMap := truthy (prop options "sourceMap");
       transformDeclaration := valueProcessor w (context loader) options;
       absSourceMap := abs;
       sourceMapConsumer := idx |}.

(** The loader passes every check and every step before the engine is
    called with [abs] and [idx] on the engine at [path]. *)
Definition starts_processing (w : World) (loader : Loader) (sourceMap : SourceMapArg)
    (query : option JsObject) (path : string)
    (abs : option SourceMap) (idx : option SourceMapIndex) : Prop :=
  test_leading_dot (context loader) = false
  ∧ getOptions w loader = inr query
  ∧ rejected_early w (merge_options loader query) = false
  ∧ load_map w loader sourceMap = Some (abs, idx)
  ∧ enginePath w (merge_options loader query) = Some path
  ∧ fs_existsSync w path = true.

(** the content that an engine resolves to *)
Definition resolved_content (r : list Event * EngineOutcome) : option string :=
  match r.2 with
  | EngineResolves reworked => Some (rw_content reworked)
  | _ => None
  end.

(** ** A small world for the examples *)

Module Demo.

Definition stack_of (head frame : string) : option string :=
  Some (head +:+ String newline ("    at " +:+ frame)).

Definition a_map : SourceMap :=
  {| sm_version := 3;
     sm_sources := ["/proj/src/a.scss"];
     sm_mappings := [ {| rm_generated := {| line := 1; column := 0 |};
                         rm_source := 0; rm_line := 1; rm_column := 0 |} ] |}.

(** a map of a version that source-map does not read *)
Definition old_map : SourceMap :=
  {| sm_version := 2; sm_sources := []; sm_mappings := [] |}.

(** an engine that throws before it returns *)
Definition throwing_engine : Engine :=
  fun _ _ _ => ([], EngineThrows (ExnError "missing '}'" (stack_of "Error: missing '}'" "parse (css.js:1:1)"))).

(** an engine whose promise is rejected with a string *)
Definition rejecting_engine : Engine :=
  fun _ _ _ => ([], EngineRejects (ExnString "missing '}'")).

(** an engine whose promise is rejected with an [Error] that has a
    one-line stack, as under [Error.stackTraceLimit = 0] *)
Definition terse_engine : Engine :=
  fun _ _ _ => ([], EngineRejects (ExnError "missing '}'" (Some "Error: missing '}'"))).

Definition world : World :=
  {| path_resolve := fun p => if starts_with "/" p then p else "/proj/" +:+ p;
     path_join := join_with "/";
     path_relative := fun _ to => to;
     fs_existsSync := fun p =>
       bool_decide (p ∈ ["/proj"; "/proj/src";
                         "/loader/lib/engine/rework.js";
                         "/loader/lib/engine/throwing.js";
                         "/loader/lib/engine/rejecting.js";
                         "/loader/lib/engine/terse.js"]);
     fs_isDirectory := fun p => bool_decide (p ∈ ["/proj"; "/proj/src"]);
     dirname__ := "/loader";
     JSON_parse := fun s =>
       if String.eqb s "{version:3}" then inr a_map
       else inl (ExnError "Unexpected token" (stack_of "SyntaxError: Unexpected token" "JSON.parse"));
     getOptions := fun l => inr (loader_query l);
     adjustSourceMap := fun _ _ m =>
       match m with
       | Some m => inr m
       | None => inl (ExnError "no source-map" (stack_of "Error: no source-map" "process"))
       end;
     SourceMapConsumer_new := fun m =>
       if (sm_version m =? 3)%Z then inr (index_of_map m)
       else inl (ExnError "Unsupported version" (stack_of "Error: Unsupported version" "new SourceMapConsumer"));
     call_function := fun _ => defaultJoin_strategy;
     require_engine := fun path =>
       if String.eqb path "/loader/lib/engine/throwing.js" then throwing_engine
       else if String.eqb path "/loader/lib/engine/rejecting.js" then rejecting_engine
       else if String.eqb path "/loader/lib/engine/terse.js" then terse_engine
       else engine_model (fun _ _ _ => a_map) |}.

(** the same world, but [loaderUtils.getOptions] throws on the query *)
Definition world_with_bad_query : World :=
  {| path_resolve := path_resolve world;
     path_join := path_join world;
     path_relative := path_relative world;
     fs_existsSync := fs_existsSync world;
     fs_isDirectory := fs_isDirectory world;
     dirname__ := dirname__ world;
     JSON_parse := JSON_parse world;
     getOptions := fun _ =>
       inl (ExnError "Unexpected token" (stack_of "SyntaxError: Unexpected token" "parseQuery"));
     adjustSourceMap := adjustSourceMap world;
     SourceMapConsumer_new := SourceMapConsumer_new world;
     call_function := call_function world;
     require_engine := require_engine world |}.

(** the configuration of the transformer used in the examples *)
Definition a_context : ResolutionContext :=
  {| contextDirectory := "/proj/out"; root := None; includeRoot := false;
     keepQuery := false; absolute := true; fail := false; silent := false;
     joinStrategy := defaultJoin_strategy; relativize := fun p => p |}.

(** a loader in [/proj/src] with the given options *)
Definition loader_with (options : list (string * JsVal)) : Loader :=
  {| context := "/proj/src";
     resourcePath := "/proj/src/a.css";
     loader_sourceMap := JBool false;
     loader_query := Some (list_to_map options);
     loader_options := None |}.

Definition css : string := "a { background: url(img/x.png) }".

End Demo.

(** ** The options of the test configuration *)

(** [Object.assign(target, source)]: every own property of the source is
    written on the target, also one whose value is [undefined]. *)
Definition Object_assign (target source : JsObject) : JsObject := source ∪ target.

(** test/engines/webpack2-sassloader6-sass4/webpack.config.js, the
    [options] of resolve-url-loader:
    [Object.assign(JSON.parse(process.env.LOADER_OPTIONS),
                   {join: process.env.LOADER_JOIN ? new Function(...)(require) : undefined})].
    [LOADER_OPTIONS] is the parsed object, [LOADER_JOIN] the variable of the
    environment when it is set, and [new_Function] what running its text
    gives. *)
Definition config_options (new_Function : string → JsVal)
    (LOADER_OPTIONS : JsObject) (LOADER_JOIN : option string) : JsObject :=
  Object_assign LOADER_OPTIONS
    {[ "join" := match LOADER_JOIN with
                 | Some code => if is_empty code then JUndefined else new_Function code
                 | None => JUndefined
                 end ]}.

(** ** More notions used in the statements *)

(** the first value of a list that is not [undefined] *)
Fixpoint first_defined (vs : list JsVal) : JsVal :=
  match vs with
  | [] => JUndefined
  | JUndefined :: rest => first_defined rest
  | v :: _ => v
  end.

(** [loader.options[camelcase(PACKAGE_NAME)]], empty when there is none *)
Definition legacy_options (loader : Loader) : JsObject :=
  default ∅ (loader_options loader ≫= (fun o => o !! camelcase_PACKAGE_NAME)).

(** a character occurs in a string *)
Fixpoint occurs (c : ascii) (s : string) : bool :=
  match s with
  | EmptyString => false
  | String a rest => Ascii.eqb a c || occurs c rest
  end.

(** an [Error] without a stack, or whose stack is one line *)
Definition has_short_stack (e : JsExn) : bool :=
  match e with
  | ExnError _ None => true
  | ExnError _ (Some stack) => negb (occurs newline stack)
  | _ => false
  end.

(** the three messages of lines 60 to 75 *)
Definition attempts_message : string :=
  format_message "loader misconfiguration"
    [dq "attempts" +:+ " option now requires " +:+ dq "join" +:+ " function"].

Definition join_message : string :=
  format_message "loader misconfiguration" [dq "join" +:+ " option must be a Function"].

Definition root_message : string :=
  format_message "loader misconfiguration"
    [dq "root" +:+ " option does not resolve to a valid directory"].

(** The source map that the loader hands to the codec: the object it was
    given, or what [JSON.parse] makes of a string that is not empty. *)
Definition supplied_map (w : World) (sourceMap : SourceMapArg) : option SourceMap :=
  match sourceMap with
  | NoMap => None
  | MapObject m => Some m
  | MapString s =>
      if is_empty s then None
      else match JSON_parse w s with
           | inr m => Some m
           | inl _ => None
           end
  end.

(** The promise chain meets the exception [e] after the engine has raised
    [raised]: the engine rejects with it, or the engine resolves and the
    codec throws it on the map of the engine in [onSuccess]. *)
Definition chain_fails (w : World) (loader : Loader) (content : string)
    (options : JsObject) (path : string)
    (abs : option SourceMap) (idx : option SourceMapIndex)
    (raised : list Event) (e : JsExn) : Prop :=
  engine_call w loader content options path abs idx = (raised, EngineRejects e)
  ∨ ∃ reworked,
      engine_call w loader content options path abs idx = (raised, EngineResolves reworked)
      ∧ truthy (prop options "sourceMap") = true
      ∧ adjustSourceMap w loader FormatSourceRelative (rw_map reworked) = inl e.

(** The ways in which a call of the loader ends. *)
Inductive Ending (w : World) (loader : Loader) (content : string)
    (sourceMap : SourceMapArg) : (JsExn + Completion) * list Event → Prop :=
  | EndRelative :
      test_leading_dot (context loader) = true →
      Ending w loader content sourceMap
        (inr (Returned content),
         [EmitError (format_message "webpack misconfiguration"
                       ["loader.context is relative, expected absolute"])])
  | EndQuery e :
      test_leading_dot (context loader) = false →
      getOptions w loader = inl e →
      Ending w loader content sourceMap (inl e, [])
  | EndEarly query message :
      test_leading_dot (context loader) = false →
      getOptions w loader = inr query →
      rejected_early w (merge_options loader query) = true →
      Ending w loader content sourceMap (inr (Returned content), [EmitError message])
  | EndParse query s e :
      test_leading_dot (context loader) = false →
      getOptions w loader = inr query →
      rejected_early w (merge_options loader query) = false →
      sourceMap = MapString s →
      is_empty s = false →
      JSON_parse w s = inl e →
      Ending w loader content sourceMap
        (inr (Returned content),
         Cacheable :: severity_report (merge_options loader query)
                        (format_message "source-map error"
                           ["cannot parse source-map string (from less-loader?)"]))
  | EndCodec query m e rest :
      test_leading_dot (context loader) = false →
      getOptions w loader = inr query →
      rejected_early w (merge_options loader query) = false →
      supplied_map w sourceMap = Some m →
      adjustSourceMap w loader FormatAbsolute (Some m) = inl e →
      codec_details e = inr rest →
      Ending w loader content sourceMap
        (inr (Returned content),
         Cacheable :: severity_report (merge_options loader query)
                        (format_message "source-map error" rest))
  | EndCatch query m e thrown :
      test_leading_dot (context loader) = false →
      getOptions w loader = inr query →
      rejected_early w (merge_options loader query) = false →
      supplied_map w sourceMap = Some m →
      adjustSourceMap w loader FormatAbsolute (Some m) = inl e →
      codec_details e = inl thrown →
      Ending w loader content sourceMap (inl thrown, [Cacheable])
  | EndConsumer query m a e :
      test_leading_dot (context loader) = false →
      getOptions w loader = inr query →
      rejected_early w (merge_options loader query) = false →
      supplied_map w sourceMap = Some m →
      adjustSourceMap w loader FormatAbsolute (Some m) = inr a →
      SourceMapConsumer_new w a = inl e →
      Ending w loader content sourceMap (inl e, [Cacheable])
  | EndEngine query abs idx :
      test_leading_dot (context loader) = false →
      getOptions w loader = inr query →
      rejected_early w (merge_options loader query) = false →
      load_map w loader sourceMap = Some (abs, idx) →
      isValidEngine w (merge_options loader query) = false →
      Ending w loader content sourceMap
        (inr (Returned content),
         [Cacheable;
          EmitError (format_message "loader misconfiguration"
                       [dq "engine" +:+ " option is not valid"])])
  | EndThrown query path abs idx raised e :
      starts_processing w loader sourceMap query path abs idx →
      engine_call w loader content (merge_options loader query) path abs idx
      = (raised, EngineThrows e) →
      Ending w loader content sourceMap (inl e, [Cacheable; Async] ++ raised)
  | EndSuccess query path abs idx raised reworked map :
      starts_processing w loader sourceMap query path abs idx →
      engine_call w loader content (merge_options loader query) path abs idx
      = (raised, EngineResolves reworked) →
      (if truthy (prop (merge_options loader query) "sourceMap")
       then ∃ finalMap,
              adjustSourceMap w loader FormatSourceRelative (rw_map reworked) = inr finalMap
              ∧ map = Some finalMap
       else map = None) →
      Ending w loader content sourceMap
        (inr (Delivered (rw_content reworked) map), [Cacheable; Async] ++ raised)
  | EndFallback query path abs idx raised e rest :
      starts_processing w loader sourceMap query path abs idx →
      chain_fails w loader content (merge_options loader query) path abs idx raised e →
      exception_details e = inr rest →
      Ending w loader content sourceMap
        (inr (Delivered content None),
         [Cacheable; Async] ++ raised
           ++ severity_report (merge_options loader query)
                (format_message "Error in CSS" rest))
  | EndUnhandled query path abs idx raised e e' :
      starts_processing w loader sourceMap query path abs idx →
      chain_fails w loader content (merge_options loader query) path abs idx raised e →
      exception_details e = inl e' →
      Ending w loader content sourceMap
        (inr (Unhandled e'), [Cacheable; Async] ++ raised).

(** ** One more world for the examples *)

Module Cases.

(** an engine that changes the content and computes no map *)
Definition mapless_engine : Engine :=
  fun _ _ _ => ([], EngineResolves {| rw_content := "a { }"; rw_map := None |}).

(** the world of [Demo] with that engine in the place of every engine *)
Definition mapless_world : World :=
  {| path_resolve := path_resolve Demo.world;
     path_join := path_join Demo.world;
     path_relative := path_relative Demo.world;
     fs_existsSync := fs_existsSync Demo.world;
     fs_isDirectory := fs_isDirectory Demo.world;
     dirname__ := dirname__ Demo.world;
     JSON_parse := JSON_parse Demo.world;
     getOptions := getOptions Demo.world;
     adjustSourceMap := adjustSourceMap Demo.world;
     SourceMapConsumer_new := SourceMapConsumer_new Demo.world;
     call_function := call_function Demo.world;
     require_engine := fun _ => mapless_engine |}.

(** the world of [Demo] with a codec that throws [undefined] *)
Definition nullish_world : World :=
  {| path_resolve := path_resolve Demo.world;
     path_join := path_join Demo.world;
     path_relative := path_relative Demo.world;
     fs_existsSync := fs_existsSync Demo.world;
     fs_isDirectory := fs_isDirectory Demo.world;
     dirname__ := dirname__ Demo.world;
     JSON_parse := JSON_parse Demo.world;
     getOptions := getOptions Demo.world;
     adjustSourceMap := fun _ _ _ => inl ExnNullish;
     SourceMapConsumer_new := SourceMapConsumer_new Demo.world;
     call_function := call_function Demo.world;
     require_engine := require_engine Demo.world |}.

End Cases.

(** * Properties *)

(** ** Strings *)

Lemma append_cons (a : ascii) (s t : string) : String a s +:+ t = String a (s +:+ t).
Proof. reflexivity. Qed.

Lemma append_nil_l (s : string) : EmptyString +:+ s = s.
Proof. reflexivity. Qed.

Lemma append_nil_r (s : string) : s +:+ EmptyString = s.
Proof. induction s as [|a s IH]; [reflexivity|]. by rewrite append_cons, IH. Qed.

Lemma append_assoc (s t u : string) : (s +:+ t) +:+ u = s +:+ t +:+ u.
Proof. induction s as [|a s IH]; [reflexivity|]. by rewrite !append_cons, IH. Qed.

Lemma snoc_append (s : string) (a : ascii) (t : string) :
  snoc s a +:+ t = s +:+ String a t.
Proof. unfold snoc. by rewrite append_assoc, append_cons, append_nil_l. Qed.

(** [split] then [join] on the same separator gives the string back. *)
Lemma join_split (c : ascii) (s : string) :
  join_with (String c EmptyString) (split_on c s) = s.
Proof.
  induction s as [|a s IH]; [reflexivity|].
  cbn [split_on]. destruct (Ascii.eqb_spec a c) as [->|Hne].
  - destruct (split_on c s) as [|p ps] eqn:E; cbn in *; [by subst|].
    by rewrite <- IH.
  - destruct (split_on c s) as [|p ps] eqn:E; cbn in IH |- *; [by subst|].
    destruct ps; cbn in *; by rewrite <- IH.
Qed.

Lemma split_on_nonempty (c : ascii) (s : string) : split_on c s ≠ [].
Proof.
  destruct s as [|a s]; [done|]. cbn.
  destruct (Ascii.eqb a c); [done|]. by destruct (split_on c s).
Qed.

(** ** The scan keeps every character *)

Lemma scan_keeps_text (s : string) :
  ∀ m lit off,
    concat_strings (piece_text <$> scan m lit off s) = lit +:+ pending m +:+ s.
Proof.
  induction s as [|a rest IH]; intros m lit off.
  - cbn. by rewrite !append_nil_r.
  - destruct m as [k| |q start path|start path]; cbn [scan pending].
    + rewrite IH, snoc_append.
      assert (pending (next_text k a) = EmptyString) as ->; [|done].
      unfold next_text, restart.
      repeat (case_match; try reflexivity).
    + repeat case_match; rewrite IH; cbn [pending];
        rewrite ?snoc_append; done.
    + case_match.
      * cbn [fmap list_fmap concat_strings foldr piece_text rawText].
        change (foldr String.append EmptyString ?l) with (concat_strings l).
        by rewrite IH.
      * rewrite IH. cbn [pending]. by rewrite snoc_append.
    + case_match.
      * cbn [fmap list_fmap concat_strings foldr piece_text rawText].
        change (foldr String.append EmptyString ?l) with (concat_strings l).
        by rewrite IH.
      * rewrite IH. cbn [pending]. by rewrite snoc_append.
Qed.

Lemma scan_value_keeps_text (value : string) :
  concat_strings (piece_text <$> scan_value value) = value.
Proof. unfold scan_value. by rewrite scan_keeps_text. Qed.

(** ** The declaration transformer *)

Lemma rewrite_piece_no_map ctx start (p : Piece) :
  rewrite_piece None ctx start p = (piece_text p, []).
Proof. by destruct p. Qed.

Lemma concat_nils {A} (l : list (list A)) : Forall (fun x => x = []) l → concat l = [].
Proof. induction 1 as [|x l -> _ IH]; [done|]. by cbn. Qed.

(** Without a source map the transformer gives every value back as it is
    and raises nothing. *)
Lemma transform_no_map ctx start (value : string) :
  transform ctx None start value = (value, []).
Proof.
  unfold transform. f_equal.
  - rewrite <- (scan_value_keeps_text value) at 2. f_equal.
    rewrite <- list_fmap_compose. apply list_fmap_ext.
    intros i p _. cbn. by rewrite rewrite_piece_no_map.
  - apply concat_nils, Forall_fmap, Forall_fmap, Forall_forall.
    intros p _. cbn. by rewrite rewrite_piece_no_map.
Qed.

(** A token that the path resolver receives with an absolute url comes
    back as it is. *)
Lemma resolve_absolute dir (t : UrlToken) ctx :
  is_absolute_url (rawText t) = true → resolve dir t ctx = ResolvedPath (rawText t).
Proof. intros H. unfold resolve. by rewrite H. Qed.

Lemma rewrite_token_absolute idx ctx start (t : UrlToken) :
  is_absolute_url (rawText t) = true →
  (rewrite_token idx ctx start t).1 = rawText t.
Proof.
  intros H. unfold rewrite_token.
  destruct idx as [i|]; [|done].
  destruct (locate i (token_position start t)) as [loc|]; [|done].
  by rewrite resolve_absolute.
Qed.

(** A value all of whose tokens are absolute is not changed, whatever the
    source map. *)
Lemma transform_all_absolute ctx idx start (value : string) :
  Forall (fun t => is_absolute_url (rawText t) = true) (tokens value) →
  (transform ctx idx start value).1 = value.
Proof.
  intros H. unfold transform. cbn [fst].
  rewrite <- (scan_value_keeps_text value) at 2. f_equal.
  rewrite <- list_fmap_compose. apply list_fmap_ext.
  intros i p Hp. cbn. destruct p as [s|t]; [done|]. cbn.
  apply rewrite_token_absolute.
  rewrite Forall_forall in H. apply H. unfold tokens.
  apply list_elem_of_omap. exists (Tok t). split; [|done].
  by eapply list_elem_of_lookup_2.
Qed.

(** ** The engine *)

Section EngineFacts.

Variable engine_map : string → string → option SourceMap → SourceMap.

Lemma imap_const_ext {A B} (f : nat → A → B) (g : A → B) (l : list A) :
  (∀ i x, f i x = g x) → imap f l = g <$> l.
Proof.
  intros H. revert f H. induction l as [|x l IH]; intros f H; [done|].
  cbn. rewrite H. f_equal. apply IH. intros i y. apply H.
Qed.

(** Without a source map the engine resolves to the content it was
    given and raises nothing. *)
Lemma engine_model_no_map ctx file (content : string) out abs :
  engine_model engine_map file content
    {| outputSourceMap := out; transformDeclaration := transform ctx;
       absSourceMap := abs; sourceMapConsumer := None |}
  = ([], EngineResolves
           {| rw_content := content;
              rw_map := if out then Some (engine_map file content abs) else None |}).
Proof.
  unfold engine_model. cbn [transformDeclaration sourceMapConsumer outputSourceMap absSourceMap].
  rewrite (imap_const_ext _ (fun l => (l, @nil Event))).
  2:{ intros i l. apply transform_no_map. }
  rewrite <- !list_fmap_compose.
  f_equal.
  - apply concat_nils, Forall_fmap, Forall_forall. by intros.
  - do 2 f_equal.
    rewrite <- (join_split newline content) at 2. f_equal.
    induction (split_on newline content) as [|l ls IH]; [done|].
    cbn. by rewrite IH.
Qed.

End EngineFacts.

(** ** The error handler *)

Ltac run_monad :=
  unfold lift, throw, emit, emit_all, try_catch;
  unfold mbind, M_bind, mret, M_ret, fmap, M_fmap;
  cbv beta iota.

(** A critical exception with a string for its details: one error, and
    the content comes back. *)
Lemma handleException_critical options content label (s : string) log :
  handleException options content label (ExnString s) true log
  = (inr content, log ++ [EmitError (format_message label [s])]).
Proof. unfold handleException. run_monad. reflexivity. Qed.

(** An exception that is not critical and whose details can be read is
    reported by the severity rule, and the content comes back. *)
Lemma handleException_soft options content label exception rest log :
  exception_details exception = inr rest →
  handleException (Some options) content label exception false log
  = (inr content, log ++ severity_report options (format_message label rest)).
Proof.
  intros H. unfold handleException, severity_report. run_monad. rewrite H.
  destruct (truthy (prop options "fail")); [done|].
  destruct (truthy (prop options "silent")); cbn; [|done].
  by rewrite app_nil_r.
Qed.

(** When the details cannot be read the handler itself throws. *)
Lemma handleException_throws options content label exception crit e log :
  exception_details exception = inl e →
  handleException options content label exception crit log = (inl e, log).
Proof. intros H. unfold handleException. run_monad. by rewrite H. Qed.

(** ** The stages of the loader *)

Section Stages.

Variable w : World.
Variable loader : Loader.
Variable content : string.

Lemma rejected_early_error query sourceMap log :
  test_leading_dot (context loader) = false →
  getOptions w loader = inr query →
  rejected_early w (merge_options loader query) = true →
  ∃ message,
    resolveUrlLoader w loader content sourceMap log
    = (inr (Returned content), log ++ [EmitError message]).
Proof.
  intros Hctx Hq Hrej. unfold resolveUrlLoader. rewrite Hctx, Hq.
  run_monad.
  unfold rejected_early, attempts_without_join, invalid_root in Hrej.
  set (options := merge_options loader query) in *.
  destruct (strict_eq (prop options "join") defaultJoin
            && negb (strict_eq (prop options "attempts") (JNum 1))).
  { rewrite handleException_critical. eauto. }
  destruct (is_function (prop options "join")); cbn [negb orb] in *.
  2:{ rewrite handleException_critical. eauto. }
  rewrite Hrej. rewrite handleException_critical. eauto.
Qed.

Lemma validated_continues query sourceMap log :
  test_leading_dot (context loader) = false →
  getOptions w loader = inr query →
  rejected_early w (merge_options loader query) = false →
  resolveUrlLoader w loader content sourceMap log
  = incoming_source_map w loader content (merge_options loader query) sourceMap
      (log ++ [Cacheable]).
Proof.
  intros Hctx Hq Hrej. unfold resolveUrlLoader. rewrite Hctx, Hq.
  run_monad.
  unfold rejected_early, attempts_without_join, invalid_root in Hrej.
  set (options := merge_options loader query) in *.
  apply orb_false_elim in Hrej as [Hrej Hroot].
  apply orb_false_elim in Hrej as [Hatt Hjoin].
  by rewrite Hatt, Hjoin, Hroot.
Qed.

Lemma loaded_continues options sourceMap abs idx log :
  load_map w loader sourceMap = Some (abs, idx) →
  incoming_source_map w loader content options sourceMap log
  = choose_engine w loader content options abs idx log.
Proof.
  unfold load_map, incoming_source_map. intros H.
  destruct (truthy_map sourceMap); [|by simplify_eq].
  destruct sourceMap as [|s|m]; [by simplify_eq| |].
  - destruct (JSON_parse w s) as [?|m]; [done|].
    destruct (adjustSourceMap w loader FormatAbsolute (Some m)) as [?|a]; [done|].
    run_monad.
    destruct (SourceMapConsumer_new w a) as [?|i]; by simplify_eq.
  - destruct (adjustSourceMap w loader FormatAbsolute (Some m)) as [?|a]; [done|].
    run_monad.
    destruct (SourceMapConsumer_new w a) as [?|i]; by simplify_eq.
Qed.

Lemma invalid_engine_error options abs idx log :
  isValidEngine w options = false →
  choose_engine w loader content options abs idx log
  = (inr (Returned content),
     log ++ [EmitError (format_message "loader misconfiguration"
                          [dq "engine" +:+ " option is not valid"])]).
Proof.
  intros H. unfold choose_engine. rewrite H. cbn [negb].
  run_monad. by rewrite handleException_critical.
Qed.

Lemma valid_engine_continues options path abs idx log :
  enginePath w options = Some path →
  fs_existsSync w path = true →
  choose_engine w loader content options abs idx log
  = process w loader content options path abs idx (log ++ [Async]).
Proof.
  intros Hp Hx. unfold choose_engine, isValidEngine. rewrite Hp, Hx. cbn [negb].
  run_monad. reflexivity.
Qed.

End Stages.

(** ** From the call to the engine *)

Section Run.

Variable w : World.
Variable loader : Loader.
Variable content : string.

Lemma relative_context_error sourceMap :
  test_leading_dot (context loader) = true →
  run w loader content sourceMap
  = (inr (Returned content),
     [EmitError (format_message "webpack misconfiguration"
                   ["loader.context is relative, expected absolute"])]).
Proof.
  intros H. unfold run, resolveUrlLoader. rewrite H.
  run_monad. by rewrite handleException_critical.
Qed.

Lemma starts_processing_run sourceMap query path abs idx :
  starts_processing w loader sourceMap query path abs idx →
  run w loader content sourceMap
  = process w loader content (merge_options loader query) path abs idx
      [Cacheable; Async].
Proof.
  intros (Hctx & Hq & Hrej & Hload & Hpath & Hex). unfold run.
  rewrite (validated_continues _ _ _ query) by done.
  rewrite (loaded_continues _ _ _ _ _ abs idx) by done.
  by rewrite (valid_engine_continues _ _ _ _ path).
Qed.

(** What [process] does once the engine has resolved. *)
Lemma process_resolved options path abs idx raised reworked log :
  engine_call w loader content options path abs idx = (raised, EngineResolves reworked) →
  process w loader content options path abs idx log
  = if truthy (prop options "sourceMap") then
      match adjustSourceMap w loader FormatSourceRelative (rw_map reworked) with
      | inr finalMap =>
          (inr (Delivered (rw_content reworked) (Some finalMap)), log ++ raised)
      | inl e =>
          try_catch (onFailure content options e) (fun e' => mret (Unhandled e'))
                    (log ++ raised)
      end
    else (inr (Delivered (rw_content reworked) None), log ++ raised).
Proof.
  unfold engine_call, process. intros ->. unfold onSuccess.
  destruct (truthy (prop options "sourceMap")); run_monad; [|done].
  by destruct (adjustSourceMap w loader FormatSourceRelative (rw_map reworked)).
Qed.

(** A rejection of the engine whose details can be read is reported by
    the severity rule, and the original content is delivered. *)
Lemma process_rejected options path abs idx raised e rest log :
  engine_call w loader content options path abs idx = (raised, EngineRejects e) →
  exception_details e = inr rest →
  process w loader content options path abs idx log
  = (inr (Delivered content None),
     log ++ raised ++ severity_report options (format_message "Error in CSS" rest)).
Proof.
  unfold engine_call, process. intros -> Hrest. unfold onFailure.
  run_monad. rewrite (handleException_soft _ _ _ _ rest) by done.
  by rewrite app_assoc.
Qed.

(** What the engine throws before it returns leaves the loader. *)
Lemma process_thrown options path abs idx raised e log :
  engine_call w loader content options path abs idx = (raised, EngineThrows e) →
  process w loader content options path abs idx log = (inl e, log ++ raised).
Proof. unfold engine_call, process. intros ->. by run_monad. Qed.

End Run.

(** ** The incoming source map *)

Section SourceMapErrors.

Variable w : World.
Variable loader : Loader.
Variable content : string.

(** the codec throws an [Error]: the message is read, whatever the stack *)
Lemma codec_details_of_error (message : string) (stack : option string) :
  codec_details (ExnError message stack) = inr [message].
Proof. reflexivity. Qed.

Lemma parse_failure options (s : string) e log :
  is_empty s = false →
  JSON_parse w s = inl e →
  incoming_source_map w loader content options (MapString s) log
  = (inr (Returned content),
     log ++ severity_report options
              (format_message "source-map error"
                 ["cannot parse source-map string (from less-loader?)"])).
Proof.
  intros Hs Hp. unfold incoming_source_map. cbn [truthy_map]. rewrite Hs, Hp.
  cbn [negb]. run_monad.
  by rewrite (handleException_soft _ _ _ _
                ["cannot parse source-map string (from less-loader?)"]).
Qed.

Lemma parse_success options (s : string) m log :
  is_empty s = false →
  JSON_parse w s = inr m →
  incoming_source_map w loader content options (MapString s) log
  = incoming_source_map w loader content options (MapObject m) log.
Proof.
  intros Hs Hp. unfold incoming_source_map. cbn [truthy_map]. by rewrite Hs, Hp.
Qed.

Lemma codec_failure options m e rest log :
  adjustSourceMap w loader FormatAbsolute (Some m) = inl e →
  codec_details e = inr rest →
  incoming_source_map w loader content options (MapObject m) log
  = (inr (Returned content),
     log ++ severity_report options (format_message "source-map error" rest)).
Proof.
  intros Ha Hd. unfold incoming_source_map. cbn [truthy_map]. rewrite Ha.
  unfold codec_details in Hd.
  destruct (exn_message e) as [thrown|message]; [done|].
  run_monad. by rewrite (handleException_soft _ _ _ _ rest).
Qed.

(** What is thrown in the [catch] of line 100 leaves the loader. *)
Lemma codec_catch_throws options m e thrown log :
  adjustSourceMap w loader FormatAbsolute (Some m) = inl e →
  codec_details e = inl thrown →
  incoming_source_map w loader content options (MapObject m) log = (inl thrown, log).
Proof.
  intros Ha Hd. unfold incoming_source_map. cbn [truthy_map]. rewrite Ha.
  unfold codec_details in Hd.
  destruct (exn_message e) as [t|message]; run_monad; [congruence|].
  by rewrite (handleException_throws _ _ _ _ _ thrown).
Qed.

End SourceMapErrors.

(** ** Further facts about a call *)

(** Nothing is loaded exactly when no source map is supplied. *)
Lemma nothing_loaded_iff (w : World) (loader : Loader) (sourceMap : SourceMapArg) :
  load_map w loader sourceMap = Some (None, None) ↔ truthy_map sourceMap = false.
Proof.
  unfold load_map. split.
  - destruct (truthy_map sourceMap) eqn:Ht; [|done].
    destruct sourceMap as [|s|m]; [done| |].
    + destruct (JSON_parse w s) as [?|m]; [done|].
      destruct (adjustSourceMap w loader FormatAbsolute (Some m)) as [?|a]; [done|].
      by destruct (SourceMapConsumer_new w a).
    + destruct (adjustSourceMap w loader FormatAbsolute (Some m)) as [?|a]; [done|].
      by destruct (SourceMapConsumer_new w a).
  - by intros ->.
Qed.

(** X14.  A rejection of the engine whose details can be read is soft: the
    original content is delivered and the report follows the severity
    rule. *)
Lemma engine_rejection_is_soft (w : World) (loader : Loader) (content : string)
    (sourceMap : SourceMapArg) (query : option JsObject) (path : string)
    (abs : option SourceMap) (idx : option SourceMapIndex)
    (raised : list Event) (e : JsExn) (rest : list string) :
  starts_processing w loader sourceMap query path abs idx →
  engine_call w loader content (merge_options loader query) path abs idx
  = (raised, EngineRejects e) →
  exception_details e = inr rest →
  run w loader content sourceMap
  = (inr (Delivered content None),
     [Cacheable; Async] ++ raised
       ++ severity_report (merge_options loader query) (format_message "Error in CSS" rest)).
Proof.
  intros Hstart Hcall Hrest.
  rewrite (starts_processing_run _ _ _ _ query path abs idx) by done.
  by rewrite (process_rejected _ _ _ _ _ _ _ raised e rest).
Qed.

(** What the engine throws before it returns leaves the loader, whatever
    the options. *)
Lemma engine_throw_escapes (w : World) (loader : Loader) (content : string)
    (sourceMap : SourceMapArg) (query : option JsObject) (path : string)
    (abs : option SourceMap) (idx : option SourceMapIndex)
    (raised : list Event) (e : JsExn) :
  starts_processing w loader sourceMap query path abs idx →
  engine_call w loader content (merge_options loader query) path abs idx
  = (raised, EngineThrows e) →
  run w loader content sourceMap = (inl e, [Cacheable; Async] ++ raised).
Proof.
  intros Hstart Hcall.
  rewrite (starts_processing_run _ _ _ _ query path abs idx) by done.
  by rewrite (process_thrown _ _ _ _ _ _ _ raised e).
Qed.

(** A failure of [new SourceMapConsumer] leaves the loader as well. *)
Lemma consumer_failure_escapes (w : World) (loader : Loader) (content : string)
    (query : option JsObject) (m a : SourceMap) (e : JsExn) :
  test_leading_dot (context loader) = false →
  getOptions w loader = inr query →
  rejected_early w (merge_options loader query) = false →
  adjustSourceMap w loader FormatAbsolute (Some m) = inr a →
  SourceMapConsumer_new w a = inl e →
  run w loader content (MapObject m) = (inl e, [Cacheable]).
Proof.
  intros Hctx Hq Hrej Ha Hc. unfold run.
  rewrite (validated_continues _ _ _ query) by done.
  unfold incoming_source_map. cbn [truthy_map]. rewrite Ha.
  run_monad. by rewrite Hc.
Qed.

(** ** Examples *)

(** The case of the specification: line 3, column 10 maps to
    [/proj/src/a.scss], and the declaration starts there. *)
Example transform_resolves_against_the_source :
  let idx := {| entries := [ {| generated := {| line := 3; column := 10 |};
                                original := {| absoluteFilePath := "/proj/src/a.scss";
                                               orig_line := 7; orig_column := 2 |} |} ] |} in
  transform Demo.a_context (Some idx) {| line := 3; column := 10 |}
            "background: url(img/x.png)"
  = ("background: url(/proj/src/img/x.png)", []).
Proof. vm_compute. reflexivity. Qed.

(** A position before every mapping: the token is left and a warning is
    raised; with [silent] nothing is raised. *)
Example transform_without_mapping :
  let idx := {| entries := [ {| generated := {| line := 3; column := 10 |};
                                original := {| absoluteFilePath := "/proj/src/a.scss";
                                               orig_line := 7; orig_column := 2 |} |} ] |} in
  transform Demo.a_context (Some idx) {| line := 2; column := 0 |} "background: url(img/x.png)"
  = ("background: url(img/x.png)", [EmitWarning "no source mapping for img/x.png"]).
Proof. vm_compute. reflexivity. Qed.

(** Quotes and white space around a path stay; a scheme or an absolute
    path is left alone. *)
Example transform_is_local_to_the_token :
  transform Demo.a_context (Some (index_of_map Demo.a_map)) {| line := 1; column := 0 |}
            "url( 'a.png?x=1' ) url(data:image/png) url(/abs/b.png) url(//cdn/c.png)"
  = ("url( '/proj/src/a.png' ) url(data:image/png) url(/abs/b.png) url(//cdn/c.png)", []).
Proof. vm_compute. reflexivity. Qed.

(** The loader on a document with a source map, and with a rejected engine. *)
Example loader_rewrites_with_a_map :
  run Demo.world (Demo.loader_with []) Demo.css (MapObject Demo.a_map)
  = (inr (Delivered "a { background: url(/proj/src/img/x.png) }" None), [Cacheable; Async]).
Proof. vm_compute. reflexivity. Qed.

Example loader_with_a_rejected_engine :
  run Demo.world (Demo.loader_with [("engine", JStr "rejecting")]) Demo.css NoMap
  = (inr (Delivered Demo.css None),
     [Cacheable; Async; EmitWarning (format_message "Error in CSS" ["missing '}'"])]).
Proof. vm_compute. reflexivity. Qed.

(** [join: undefined] in the options, as the test configuration writes it,
    is the default join. *)
Example undefined_join_is_the_default :
  prop (merge_options (Demo.loader_with [("join", JUndefined)])
          (Some {[ "join" := JUndefined ]})) "join" = defaultJoin.
Proof. vm_compute. reflexivity. Qed.

(** * The claims *)

(** C10.  When [loader.context] begins with a dot the loader emits one
    error, whatever the options (they are not even read), makes no other
    call on the loader, and returns the content it was given. *)
Theorem relative_context_is_critical (w : World) (loader : Loader) (content : string)
    (sourceMap : SourceMapArg) :
  test_leading_dot (context loader) = true →
  run w loader content sourceMap
  = (inr (Returned content),
     [EmitError (format_message "webpack misconfiguration"
                   ["loader.context is relative, expected absolute"])]).
Proof. apply relative_context_error. Qed.

Lemma relative_context_is_critical_witness :
  let loader := {| context := "./src"; resourcePath := "./src/a.css";
                   loader_sourceMap := JBool false;
                   loader_query := Some {[ "silent" := JBool true ]};
                   loader_options := None |} in
  test_leading_dot (context loader) = true
  ∧ run Demo.world_with_bad_query loader Demo.css NoMap
    = (inr (Returned Demo.css),
       [EmitError (format_message "webpack misconfiguration"
                     ["loader.context is relative, expected absolute"])]).
Proof.
  intros loader. split; [reflexivity|].
  apply (relative_context_is_critical Demo.world_with_bad_query loader Demo.css NoMap).
  reflexivity.
Defined.

(** C6, as the code has it.  When [attempts] is not 1 while [join] is the
    default join (no join function of the caller's own), the loader emits
    one error and returns the content it was given; it makes no other call
    on the loader, so nothing has been processed. *)
Theorem attempts_without_join_is_fatal (w : World) (loader : Loader) (content : string)
    (sourceMap : SourceMapArg) (query : option JsObject) :
  getOptions w loader = inr query →
  attempts_without_join (merge_options loader query) = true →
  ∃ message,
    run w loader content sourceMap = (inr (Returned content), [EmitError message]).
Proof.
  intros Hq Hatt.
  destruct (test_leading_dot (context loader)) eqn:Hctx.
  - eexists. by apply relative_context_error.
  - apply (rejected_early_error w loader content query sourceMap []); [done..|].
    unfold rejected_early. by rewrite Hatt.
Qed.

Lemma attempts_without_join_is_fatal_witness :
  let loader := Demo.loader_with [("attempts", JNum 2); ("silent", JBool true)] in
  attempts_without_join (merge_options loader (loader_query loader)) = true
  ∧ ∃ message,
      run Demo.world loader Demo.css NoMap = (inr (Returned Demo.css), [EmitError message]).
Proof.
  intros loader. split; [reflexivity|].
  apply (attempts_without_join_is_fatal Demo.world loader Demo.css NoMap (loader_query loader));
    reflexivity.
Defined.

(** C6, as the claim has it, fails: with [attempts] set to 2 and a join
    function of the caller's own, the document is processed and no error is
    emitted. *)
Lemma custom_join_with_attempts_is_processed :
  let loader := Demo.loader_with [("attempts", JNum 2); ("join", JFun 7)] in
  let options := merge_options loader (loader_query loader) in
  strict_eq (prop options "attempts") (JNum 1) = false
  ∧ is_function (prop options "join") = true
  ∧ strict_eq (prop options "join") defaultJoin = false
  ∧ run Demo.world loader Demo.css NoMap
    = (inr (Delivered Demo.css None), [Cacheable; Async]).
Proof. vm_compute. done. Qed.

(** C1, as the code has it.  When [root] is given and is no directory, or
    [join] is no function, or [attempts] is not 1 while [join] is the
    default, the loader emits an error and returns the content it was
    given, whatever [fail] and [silent] are.  When the engine is not valid
    the same holds if no source map is supplied or the supplied one is
    parsed, adjusted and indexed without failure.  The log shows the error
    channel only: no warning is emitted. *)
Theorem misconfiguration_is_fatal (w : World) (loader : Loader) (content : string)
    (sourceMap : SourceMapArg) (query : option JsObject) :
  getOptions w loader = inr query →
  rejected_early w (merge_options loader query) = true
  ∨ (isValidEngine w (merge_options loader query) = false
     ∧ is_Some (load_map w loader sourceMap)) →
  ∃ message,
    run w loader content sourceMap = (inr (Returned content), [EmitError message])
    ∨ run w loader content sourceMap
      = (inr (Returned content), [Cacheable; EmitError message]).
Proof.
  intros Hq H.
  destruct (test_leading_dot (context loader)) eqn:Hctx.
  { eexists. left. by apply relative_context_error. }
  destruct (rejected_early w (merge_options loader query)) eqn:Hrej.
  { destruct (rejected_early_error w loader content query sourceMap [] Hctx Hq Hrej)
      as [message Hrun].
    exists message. by left. }
  destruct H as [?|[Hengine [[abs idx] Hload]]]; [done|].
  eexists. right. unfold run.
  rewrite (validated_continues _ _ _ query) by done.
  rewrite (loaded_continues _ _ _ _ _ abs idx) by done.
  by rewrite invalid_engine_error.
Qed.

Lemma misconfiguration_is_fatal_witness :
  let loader := Demo.loader_with [("root", JStr "/nowhere"); ("silent", JBool true)] in
  rejected_early Demo.world (merge_options loader (loader_query loader)) = true
  ∧ ∃ message,
      run Demo.world loader Demo.css (MapString "not json")
      = (inr (Returned Demo.css), [EmitError message])
      ∨ run Demo.world loader Demo.css (MapString "not json")
        = (inr (Returned Demo.css), [Cacheable; EmitError message]).
Proof.
  intros loader. split; [reflexivity|].
  apply (misconfiguration_is_fatal Demo.world loader Demo.css (MapString "not json")
           (loader_query loader)); [reflexivity|].
  left. reflexivity.
Defined.

(** C1, as the claim has it, fails: with an engine that does not exist,
    [silent] set and a source-map string that does not parse, the loader
    returns the content and emits nothing, neither error nor warning. *)
Lemma invalid_engine_behind_source_map_error :
  let loader := Demo.loader_with [("engine", JStr "nope"); ("silent", JBool true)] in
  isValidEngine Demo.world (merge_options loader (loader_query loader)) = false
  ∧ run Demo.world loader Demo.css (MapString "not json")
    = (inr (Returned Demo.css), [Cacheable]).
Proof. vm_compute. done. Qed.

(** C5, as the code has it.  For a configuration that passes the checks, a
    source map given as a non-empty string is parsed as JSON and then
    treated as the object it denotes.  When the parse fails, or the codec
    rejects the map with an exception whose message the [catch] of line 100
    can read, the loader returns the content it was given and reports under
    the label "source-map error", which no other failure uses, by the
    severity rule: an error if [fail] is set, else a warning unless [silent]
    is set. *)
Theorem source_map_error_follows_severity (w : World) (loader : Loader) (content : string)
    (query : option JsObject) (s : string) :
  test_leading_dot (context loader) = false →
  getOptions w loader = inr query →
  rejected_early w (merge_options loader query) = false →
  is_empty s = false →
  match JSON_parse w s with
  | inl _ =>
      run w loader content (MapString s)
      = (inr (Returned content),
         Cacheable :: severity_report (merge_options loader query)
                        (format_message "source-map error"
                           ["cannot parse source-map string (from less-loader?)"]))
  | inr m =>
      run w loader content (MapString s) = run w loader content (MapObject m)
      ∧ ∀ e rest,
          adjustSourceMap w loader FormatAbsolute (Some m) = inl e →
          codec_details e = inr rest →
          run w loader content (MapString s)
          = (inr (Returned content),
             Cacheable :: severity_report (merge_options loader query)
                            (format_message "source-map error" rest))
  end.
Proof.
  intros Hctx Hq Hrej Hs. unfold run.
  rewrite !(validated_continues _ _ _ query) by done.
  destruct (JSON_parse w s) as [e|m] eqn:Hp.
  - by rewrite (parse_failure _ _ _ _ _ e).
  - rewrite (validated_continues _ _ _ query) by done.
    rewrite (parse_success _ _ _ _ _ m) by done. split; [done|].
    intros e rest He Hd. by rewrite (codec_failure _ _ _ _ _ e rest).
Qed.

Lemma source_map_error_follows_severity_witness :
  let loader := Demo.loader_with [] in
  run Demo.world loader Demo.css (MapString "not json")
  = (inr (Returned Demo.css),
     [Cacheable;
      EmitWarning (format_message "source-map error"
                     ["cannot parse source-map string (from less-loader?)"])]).
Proof.
  intros loader.
  apply (source_map_error_follows_severity Demo.world loader Demo.css
           (loader_query loader) "not json"); reflexivity.
Defined.

(** C5, as the claim has it, fails: with [silent] set, a source-map string
    that does not parse is reported nowhere. *)
Lemma unparsed_source_map_is_silenced :
  let loader := Demo.loader_with [("silent", JBool true)] in
  (∃ e, JSON_parse Demo.world "not json" = inl e)
  ∧ run Demo.world loader Demo.css (MapString "not json")
    = (inr (Returned Demo.css), [Cacheable]).
Proof. split; [eexists; reflexivity | vm_compute; reflexivity]. Qed.

(** C8.  When the loader reaches the engine and the engine resolves, the
    callback receives the content of the engine; with it, if the
    [sourceMap] option is set, the map of the engine as the codec adjusts
    it to the [sourceRelative] format (sources relative to the file being
    processed), and no map otherwise. *)
Theorem success_delivers_content_and_map (w : World) (loader : Loader) (content : string)
    (sourceMap : SourceMapArg) (query : option JsObject) (path : string)
    (abs : option SourceMap) (idx : option SourceMapIndex)
    (raised : list Event) (reworked : Reworked) :
  starts_processing w loader sourceMap query path abs idx →
  engine_call w loader content (merge_options loader query) path abs idx
  = (raised, EngineResolves reworked) →
  if truthy (prop (merge_options loader query) "sourceMap") then
    ∀ finalMap,
      adjustSourceMap w loader FormatSourceRelative (rw_map reworked) = inr finalMap →
      run w loader content sourceMap
      = (inr (Delivered (rw_content reworked) (Some finalMap)),
         [Cacheable; Async] ++ raised)
  else
    run w loader content sourceMap
    = (inr (Delivered (rw_content reworked) None), [Cacheable; Async] ++ raised).
Proof.
  intros Hstart Hcall.
  rewrite (starts_processing_run _ _ _ _ query path abs idx) by done.
  rewrite (process_resolved _ _ _ _ _ _ _ raised reworked) by done.
  destruct (truthy (prop (merge_options loader query) "sourceMap")); [|done].
  by intros finalMap ->.
Qed.

Lemma success_delivers_content_and_map_witness :
  let loader := Demo.loader_with [("sourceMap", JBool true); ("absolute", JBool true)] in
  run Demo.world loader Demo.css (MapString "{version:3}")
  = (inr (Delivered "a { background: url(/proj/src/img/x.png) }" (Some Demo.a_map)),
     [Cacheable; Async]).
Proof.
  intros loader.
  assert (starts_processing Demo.world loader (MapString "{version:3}") (loader_query loader)
            "/loader/lib/engine/rework.js"
            (Some Demo.a_map) (Some (index_of_map Demo.a_map))) as Hstart.
  { repeat split; reflexivity. }
  pose proof (success_delivers_content_and_map Demo.world loader Demo.css
                (MapString "{version:3}") (loader_query loader)
                "/loader/lib/engine/rework.js"
                (Some Demo.a_map) (Some (index_of_map Demo.a_map)) []
                {| rw_content := "a { background: url(/proj/src/img/x.png) }";
                   rw_map := Some Demo.a_map |}
                Hstart eq_refl) as H.
  exact (H Demo.a_map eq_refl).
Defined.

(** C2.  When no source map is supplied and the loader reaches an engine
    that does what the specification says, the callback receives the
    content that the loader was given, and the loader emits neither an
    error nor a warning: it only calls [cacheable] and [async]. *)
Theorem no_source_map_no_change (w : World) (loader : Loader) (content : string)
    (sourceMap : SourceMapArg) (query : option JsObject) (path : string)
    (engine_map : string → string → option SourceMap → SourceMap) :
  truthy_map sourceMap = false →
  starts_processing w loader sourceMap query path None None →
  require_engine w path = engine_model engine_map →
  (truthy (prop (merge_options loader query) "sourceMap") = true →
   ∃ finalMap,
     adjustSourceMap w loader FormatSourceRelative
       (Some (engine_map (resourcePath loader) content None)) = inr finalMap) →
  ∃ map,
    run w loader content sourceMap = (inr (Delivered content map), [Cacheable; Async]).
Proof.
  intros _ Hstart Hengine Hadjust.
  rewrite (starts_processing_run _ _ _ _ query path None None) by done.
  set (options := merge_options loader query) in *.
  assert (engine_call w loader content options path None None
          = ([], EngineResolves
                   {| rw_content := content;
                      rw_map := if truthy (prop options "sourceMap")
                                then Some (engine_map (resourcePath loader) content None)
                                else None |})) as Hcall.
  { unfold engine_call. rewrite Hengine. unfold valueProcessor.
    apply engine_model_no_map. }
  rewrite (process_resolved _ _ _ _ _ _ _ _ _ _ Hcall). cbn [rw_content rw_map].
  destruct (truthy (prop options "sourceMap")).
  - destruct Hadjust as [finalMap ->]; [done|]. eexists. by rewrite app_nil_r.
  - eexists. by rewrite app_nil_r.
Qed.

Lemma no_source_map_no_change_witness :
  let loader := Demo.loader_with [("sourceMap", JBool true); ("fail", JBool true)] in
  truthy_map NoMap = false
  ∧ ∃ map,
      run Demo.world loader Demo.css NoMap
      = (inr (Delivered Demo.css map), [Cacheable; Async]).
Proof.
  intros loader. split; [reflexivity|].
  apply (no_source_map_no_change Demo.world loader Demo.css NoMap (loader_query loader)
           "/loader/lib/engine/rework.js" (fun _ _ _ => Demo.a_map)).
  - reflexivity.
  - repeat split; reflexivity.
  - reflexivity.
  - intros _. eexists. reflexivity.
Defined.

(** C3.  A token whose text is an absolute url (it has a scheme, or is an
    absolute path) is never rewritten, with a source map or without one:
    the rewrite of the token gives its own text, and so the piece that the
    transform of any value puts in its place is its own text. *)
Theorem absolute_url_is_never_rewritten (ctx : ResolutionContext)
    (idx : option SourceMapIndex) (start : Position) (value : string)
    (i : nat) (t : UrlToken) :
  scan_value value !! i = Some (Tok t) →
  is_absolute_url (rawText t) = true →
  (rewrite_token idx ctx start t).1 = rawText t
  ∧ (fst <$> (rewrite_piece idx ctx start <$> scan_value value)) !! i = Some (rawText t).
Proof.
  intros Hi Habs.
  pose proof (rewrite_token_absolute idx ctx start t Habs) as Hsame.
  split; [done|].
  rewrite !list_lookup_fmap, Hi. cbn. by rewrite Hsame.
Qed.

Lemma absolute_url_is_never_rewritten_witness :
  let ctx := Demo.a_context in
  let idx := Some (index_of_map Demo.a_map) in
  let start := {| line := 1; column := 4 |} in
  let value := "url(img/x.png), url(http://a/b.png)" in
  let t := {| rawText := "http://a/b.png"; startOffset := 20; endOffset := 34;
              quoted := false |} in
  (scan_value value !! 3 = Some (Tok t) ∧ is_absolute_url (rawText t) = true)
  ∧ (rewrite_token idx ctx start t).1 = rawText t
  ∧ (fst <$> (rewrite_piece idx ctx start <$> scan_value value)) !! 3 = Some (rawText t).
Proof.
  intros ctx idx start value t. split; [split; reflexivity|].
  apply (absolute_url_is_never_rewritten ctx idx start value 3 t); reflexivity.
Defined.

(** C9.  The engine always resolves, and what it resolves to is a fixed
    point of a second pass that is given no source map: the second pass
    resolves to the same content and raises nothing, whatever the first
    pass did to the tokens. *)
Theorem second_pass_without_map_changes_nothing
    (engine_map : string → string → option SourceMap → SourceMap)
    (ctx ctx' : ResolutionContext) (file : string) (content : string)
    (out out' : bool) (abs : option SourceMap) (idx : option SourceMapIndex) :
  ∃ once,
    resolved_content
      (engine_model engine_map file content
         {| outputSourceMap := out; transformDeclaration := transform ctx;
            absSourceMap := abs; sourceMapConsumer := idx |}) = Some once
    ∧ resolved_content
        (engine_model engine_map file once
           {| outputSourceMap := out'; transformDeclaration := transform ctx';
              absSourceMap := None; sourceMapConsumer := None |}) = Some once
    ∧ (engine_model engine_map file once
         {| outputSourceMap := out'; transformDeclaration := transform ctx';
            absSourceMap := None; sourceMapConsumer := None |}).1 = [].
Proof.
  eexists. split; [reflexivity|].
  by rewrite engine_model_no_map.
Qed.

(** C7: the engine that throws.  With an engine that throws before it
    returns, the exception leaves the loader after [async] has been
    called: no content is returned or delivered and nothing is reported.
    With an engine that rejects with an [Error] whose stack has one line,
    the handler throws while it formats the message, and the callback is
    never called. *)
Theorem engine_throw_is_not_soft :
  run Demo.world (Demo.loader_with [("engine", JStr "throwing")]) Demo.css NoMap
  = (inl (ExnError "missing '}'" (Demo.stack_of "Error: missing '}'" "parse (css.js:1:1)")),
     [Cacheable; Async])
  ∧ run Demo.world (Demo.loader_with [("engine", JStr "terse")]) Demo.css NoMap
    = (inr (Unhandled (TypeError "trim")), [Cacheable; Async]).
Proof. split; vm_compute; reflexivity. Qed.

(** C4: an exception that leaves the loader.  With a source map of a
    version that [SourceMapConsumer] refuses, its constructor throws
    outside any [try]: the loader throws, returns no content and reports
    nothing. *)
Theorem consumer_failure_leaves_the_loader :
  adjustSourceMap Demo.world (Demo.loader_with []) FormatAbsolute (Some Demo.old_map)
  = inr Demo.old_map
  ∧ run Demo.world (Demo.loader_with []) Demo.css (MapObject Demo.old_map)
    = (inl (ExnError "Unsupported version"
              (Demo.stack_of "Error: Unsupported version" "new SourceMapConsumer")),
       [Cacheable]).
Proof. split; vm_compute; reflexivity. Qed.

(** * Further properties of the code *)

(** ** Every way in which a call ends *)

Section Endings.

Variable w : World.
Variable loader : Loader.
Variable content : string.

Lemma onFailure_readable options e rest log :
  exception_details e = inr rest →
  try_catch (onFailure content options e) (fun e' => mret (Unhandled e')) log
  = (inr (Delivered content None),
     log ++ severity_report options (format_message "Error in CSS" rest)).
Proof.
  intros H. unfold onFailure. run_monad.
  by rewrite (handleException_soft _ _ _ _ rest).
Qed.

Lemma onFailure_unreadable options e e' log :
  exception_details e = inl e' →
  try_catch (onFailure content options e) (fun e' => mret (Unhandled e')) log
  = (inr (Unhandled e'), log).
Proof.
  intros H. unfold onFailure. run_monad.
  by rewrite (handleException_throws _ _ _ _ _ e').
Qed.

Lemma process_unreadable options path abs idx raised e e' log :
  engine_call w loader content options path abs idx = (raised, EngineRejects e) →
  exception_details e = inl e' →
  process w loader content options path abs idx log = (inr (Unhandled e'), log ++ raised).
Proof.
  unfold engine_call, process. intros -> H. unfold onFailure. run_monad.
  by rewrite (handleException_throws _ _ _ _ _ e').
Qed.

Lemma valid_engine_has_path options :
  isValidEngine w options = true →
  ∃ path, enginePath w options = Some path ∧ fs_existsSync w path = true.
Proof.
  unfold isValidEngine. destruct (enginePath w options) as [path|]; [|done]. eauto.
Qed.

(** from the choice of the engine on *)
Lemma engine_stage_ending sourceMap query abs idx :
  test_leading_dot (context loader) = false →
  getOptions w loader = inr query →
  rejected_early w (merge_options loader query) = false →
  load_map w loader sourceMap = Some (abs, idx) →
  Ending w loader content sourceMap
    (choose_engine w loader content (merge_options loader query) abs idx [Cacheable]).
Proof.
  intros Hctx Hq Hrej Hload.
  set (options := merge_options loader query) in *.
  destruct (isValidEngine w options) eqn:Hvalid.
  2:{ rewrite invalid_engine_error by done. by eapply EndEngine. }
  destruct (valid_engine_has_path _ Hvalid) as (path & Hpath & Hex).
  rewrite (valid_engine_continues _ _ _ _ path) by done.
  assert (starts_processing w loader sourceMap query path abs idx) as Hstart by done.
  change ([Cacheable] ++ [Async]) with [Cacheable; Async].
  destruct (engine_call w loader content options path abs idx) as [raised outcome] eqn:Hcall.
  destruct outcome as [e|e|reworked].
  - rewrite (process_thrown _ _ _ _ _ _ _ raised e) by done. by eapply EndThrown.
  - assert (chain_fails w loader content options path abs idx raised e) as Hfail by by left.
    destruct (exception_details e) as [e'|rest] eqn:Hd.
    + rewrite (process_unreadable _ _ _ _ raised e e') by done. by eapply EndUnhandled.
    + rewrite (process_rejected _ _ _ _ _ _ _ raised e rest) by done.
      by eapply EndFallback.
  - rewrite (process_resolved _ _ _ _ _ _ _ raised reworked) by done.
    destruct (truthy (prop options "sourceMap")) eqn:Hmap.
    2:{ eapply EndSuccess; [done..|]. fold options. by rewrite Hmap. }
    destruct (adjustSourceMap w loader FormatSourceRelative (rw_map reworked))
      as [e|finalMap] eqn:Hadj.
    2:{ eapply EndSuccess; [done..|]. fold options. rewrite Hmap. eauto. }
    assert (chain_fails w loader content options path abs idx raised e) as Hfail.
    { right. eauto. }
    destruct (exception_details e) as [e'|rest] eqn:Hd.
    + rewrite (onFailure_unreadable _ _ e') by done. by eapply EndUnhandled.
    + rewrite (onFailure_readable _ _ rest) by done. by eapply EndFallback.
Qed.

(** from the codec on, for the map that the loader hands to it *)
Lemma codec_stage_ending sourceMap query m :
  test_leading_dot (context loader) = false →
  getOptions w loader = inr query →
  rejected_early w (merge_options loader query) = false →
  supplied_map w sourceMap = Some m →
  load_map w loader sourceMap = load_map w loader (MapObject m) →
  Ending w loader content sourceMap
    (incoming_source_map w loader content (merge_options loader query) (MapObject m)
       [Cacheable]).
Proof.
  intros Hctx Hq Hrej Hsup Hsame.
  destruct (adjustSourceMap w loader FormatAbsolute (Some m)) as [e|a] eqn:Ha.
  { destruct (codec_details e) as [thrown|rest] eqn:Hd.
    - rewrite (codec_catch_throws _ _ _ _ _ e thrown) by done. by eapply EndCatch.
    - rewrite (codec_failure _ _ _ _ _ e rest) by done. by eapply EndCodec. }
  destruct (SourceMapConsumer_new w a) as [e|i] eqn:Hc.
  - unfold incoming_source_map. cbn [truthy_map]. rewrite Ha.
    run_monad. rewrite Hc. by eapply EndConsumer.
  - assert (load_map w loader (MapObject m) = Some (Some a, Some i)) as Hload.
    { unfold load_map. cbn [truthy_map]. by rewrite Ha, Hc. }
    rewrite (loaded_continues _ _ _ _ _ (Some a) (Some i)) by done.
    apply engine_stage_ending; [done..|]. by rewrite Hsame.
Qed.

(** A call of the loader ends in one of the ways of [Ending]. *)
Lemma run_ending sourceMap : Ending w loader content sourceMap (run w loader content sourceMap).
Proof.
  destruct (test_leading_dot (context loader)) eqn:Hctx.
  { rewrite relative_context_error by done. by constructor. }
  destruct (getOptions w loader) as [e|query] eqn:Hq.
  { unfold run, resolveUrlLoader. rewrite Hctx, Hq. run_monad. by eapply EndQuery. }
  destruct (rejected_early w (merge_options loader query)) eqn:Hrej.
  { destruct (rejected_early_error w loader content query sourceMap [] Hctx Hq Hrej)
      as [message Hrun].
    unfold run. rewrite Hrun. by eapply EndEarly. }
  unfold run. rewrite (validated_continues _ _ _ query) by done.
  change ([] ++ [Cacheable]) with [Cacheable].
  destruct sourceMap as [|s|m].
  - rewrite (loaded_continues _ _ _ _ _ None None) by done.
    by apply engine_stage_ending.
  - destruct (is_empty s) eqn:Hs.
    { assert (load_map w loader (MapString s) = Some (None, None)) as Hload.
      { unfold load_map. cbn [truthy_map]. by rewrite Hs. }
      rewrite (loaded_continues _ _ _ _ _ None None) by done.
      by apply engine_stage_ending. }
    destruct (JSON_parse w s) as [e|m] eqn:Hp.
    { rewrite (parse_failure _ _ _ _ _ e) by done. by eapply EndParse. }
    rewrite (parse_success _ _ _ _ _ m) by done.
    apply codec_stage_ending; [done..| |].
    + cbn [supplied_map]. by rewrite Hs, Hp.
    + unfold load_map. cbn [truthy_map]. by rewrite Hs, Hp.
  - by apply codec_stage_ending.
Qed.

End Endings.

(** ** The options *)

Lemma first_defined_nested (a b c : JsVal) :
  first_defined [first_defined [a; b]; c] = first_defined [a; b; c].
Proof. by destruct a, b. Qed.

Lemma prop_defaults2 (d s : JsObject) (k : string) :
  prop (defaults2 d s) k = first_defined [prop d k; prop s k].
Proof.
  unfold prop, defaults2. rewrite lookup_merge.
  destruct (d !! k) as [[]|], (s !! k) as [[]|]; reflexivity.
Qed.

Lemma prop_empty (k : string) : prop ∅ k = JUndefined.
Proof. unfold prop. by rewrite lookup_empty. Qed.

(** the merged options, key by key *)
Lemma prop_merge_options (loader : Loader) (query : option JsObject) (k : string) :
  prop (merge_options loader query) k
  = first_defined [prop (default ∅ query) k; prop (legacy_options loader) k;
                   prop (default_options loader) k].
Proof.
  unfold merge_options, legacy_options, defaults. cbn [foldl].
  destruct (loader_options loader ≫= _) as [legacy|]; cbn [default].
  - by rewrite !prop_defaults2, first_defined_nested.
  - rewrite prop_defaults2, prop_empty. by destruct (prop (default ∅ query) k).
Qed.

(** X1.  An option given to the loader wins over the same option under
    [resolveUrlLoader] in the options of the configuration, which wins over
    the default; an option whose value is [undefined] counts as not given. *)
Theorem options_precedence (loader : Loader) (query : option JsObject) (k : string) :
  let given := prop (default ∅ query) k in
  let legacy := prop (legacy_options loader) k in
  let merged := prop (merge_options loader query) k in
  (given ≠ JUndefined → merged = given)
  ∧ (given = JUndefined → legacy ≠ JUndefined → merged = legacy)
  ∧ (given = JUndefined → legacy = JUndefined → merged = prop (default_options loader) k).
Proof.
  cbn zeta. rewrite prop_merge_options.
  repeat split.
  - intros H. by destruct (prop (default ∅ query) k).
  - intros -> H. by destruct (prop (legacy_options loader) k).
  - intros -> ->. by destruct (prop (default_options loader) k).
Qed.

Lemma default_option_values (loader : Loader) :
  prop (default_options loader) "join" = defaultJoin
  ∧ prop (default_options loader) "attempts" = JNum 1
  ∧ prop (default_options loader) "root" = JNull
  ∧ prop (default_options loader) "engine" = JStr "rework"
  ∧ prop (default_options loader) "sourceMap" = loader_sourceMap loader.
Proof. repeat split; vm_compute; reflexivity. Qed.

(** X2.  A call that gives none of [join], [attempts] and [root], neither
    to the loader nor in the options of the configuration, passes the three
    checks of lines 60 to 75 in every world: the defaults are consistent,
    and the file system is not consulted. *)
Theorem unset_options_are_accepted (w : World) (loader : Loader) (query : option JsObject) :
  (∀ k, k ∈ ["join"; "attempts"; "root"] →
        prop (default ∅ query) k = JUndefined ∧ prop (legacy_options loader) k = JUndefined) →
  rejected_early w (merge_options loader query) = false.
Proof.
  intros H.
  destruct (default_option_values loader) as (Hj & Ha & Hr & _).
  assert (∀ k, k ∈ ["join"; "attempts"; "root"] →
               prop (merge_options loader query) k = prop (default_options loader) k) as Hk.
  { intros k Hin. destruct (H k Hin) as [Hq Hl].
    rewrite prop_merge_options, Hq, Hl.
    by destruct (prop (default_options loader) k). }
  unfold rejected_early, attempts_without_join, invalid_root.
  rewrite (Hk "join"), (Hk "attempts"), (Hk "root"), Hj, Ha, Hr;
    [reflexivity | rewrite !elem_of_cons; auto..].
Qed.

Lemma unset_options_are_accepted_witness :
  let loader := Demo.loader_with [("silent", JBool true); ("engine", JStr "nope")] in
  rejected_early Demo.world (merge_options loader (loader_query loader)) = false.
Proof.
  intros loader.
  apply (unset_options_are_accepted Demo.world loader (loader_query loader)).
  intros k Hk.
  repeat (apply elem_of_cons in Hk as [->|Hk]; [split; vm_compute; reflexivity|]).
  by apply elem_of_nil in Hk.
Defined.

(** ** The checks of the configuration *)

Section Checks.

Variable w : World.
Variable loader : Loader.
Variable content : string.

Lemma non_function_is_not_default (v : JsVal) :
  is_function v = false → strict_eq v defaultJoin = false.
Proof. by destruct v. Qed.

Lemma early_error (query : option JsObject) (sourceMap : SourceMapArg) :
  test_leading_dot (context loader) = false →
  getOptions w loader = inr query →
  let options := merge_options loader query in
  run w loader content sourceMap
  = if attempts_without_join options then
      (inr (Returned content), [EmitError attempts_message])
    else if negb (is_function (prop options "join")) then
      (inr (Returned content), [EmitError join_message])
    else if invalid_root w options then
      (inr (Returned content), [EmitError root_message])
    else incoming_source_map w loader content options sourceMap [Cacheable].
Proof.
  intros Hctx Hq options. unfold run, resolveUrlLoader. rewrite Hctx, Hq.
  run_monad. fold options. unfold attempts_without_join, invalid_root.
  destruct (strict_eq (prop options "join") defaultJoin
            && negb (strict_eq (prop options "attempts") (JNum 1))).
  { by rewrite handleException_critical. }
  destruct (negb (is_function (prop options "join"))).
  { by rewrite handleException_critical. }
  destruct (truthy (prop options "root") && negb (isValidRoot w options)).
  { by rewrite handleException_critical. }
  reflexivity.
Qed.

End Checks.

(** X3.  The first check that fails is the one reported, with its own
    message: [attempts] without a join function before anything else; a
    [join] that is no function whatever [attempts] and [root] are; an
    invalid [root] only when the two checks before it pass.  In each case
    that error is the only call on the loader and the content is returned. *)
Theorem first_failed_check_is_reported (w : World) (loader : Loader) (content : string)
    (sourceMap : SourceMapArg) (query : option JsObject) :
  test_leading_dot (context loader) = false →
  getOptions w loader = inr query →
  let options := merge_options loader query in
  (attempts_without_join options = true →
   run w loader content sourceMap = (inr (Returned content), [EmitError attempts_message]))
  ∧ (is_function (prop options "join") = false →
     run w loader content sourceMap = (inr (Returned content), [EmitError join_message]))
  ∧ (attempts_without_join options = false →
     is_function (prop options "join") = true →
     invalid_root w options = true →
     run w loader content sourceMap = (inr (Returned content), [EmitError root_message])).
Proof.
  intros Hctx Hq options.
  pose proof (early_error w loader content query sourceMap Hctx Hq) as Hrun.
  cbn zeta in Hrun. fold options in Hrun.
  repeat split.
  - intros H. by rewrite Hrun, H.
  - intros H. rewrite Hrun. unfold attempts_without_join.
    by rewrite (non_function_is_not_default _ H), H.
  - intros Ha Hj Hr. by rewrite Hrun, Ha, Hj, Hr.
Qed.

Lemma first_failed_check_is_reported_witness :
  let loader := Demo.loader_with [("join", JStr "x"); ("attempts", JNum 2);
                                  ("root", JStr "/nowhere")] in
  run Demo.world loader Demo.css NoMap = (inr (Returned Demo.css), [EmitError join_message]).
Proof.
  intros loader.
  apply (first_failed_check_is_reported Demo.world loader Demo.css NoMap (loader_query loader));
    reflexivity.
Defined.

(** X4.  A [root] that is truthy and is no string (a number, [true], an
    object) is rejected in every world: it never reaches [path.resolve] or
    the file system. *)
Theorem non_string_root_is_rejected (w : World) (loader : Loader) (content : string)
    (sourceMap : SourceMapArg) (query : option JsObject) :
  test_leading_dot (context loader) = false →
  getOptions w loader = inr query →
  attempts_without_join (merge_options loader query) = false →
  is_function (prop (merge_options loader query) "join") = true →
  truthy (prop (merge_options loader query) "root") = true →
  typeof (prop (merge_options loader query) "root") ≠ TyString →
  run w loader content sourceMap = (inr (Returned content), [EmitError root_message]).
Proof.
  intros Hctx Hq Ha Hj Ht Hty.
  rewrite (early_error w loader content query sourceMap Hctx Hq). cbn zeta.
  rewrite Ha, Hj. cbn [negb].
  assert (invalid_root w (merge_options loader query) = true) as ->; [|done].
  unfold invalid_root, isValidRoot, resolvedRoot. rewrite Ht.
  by destruct (prop (merge_options loader query) "root").
Qed.

Lemma non_string_root_is_rejected_witness :
  let loader := Demo.loader_with [("root", JBool true); ("silent", JBool true)] in
  run Demo.world loader Demo.css NoMap = (inr (Returned Demo.css), [EmitError root_message]).
Proof.
  intros loader.
  apply (non_string_root_is_rejected Demo.world loader Demo.css NoMap (loader_query loader));
    try reflexivity.
  vm_compute. discriminate.
Defined.

(** X5.  An empty string for the source map is no source map: the loader
    does exactly what it does without one, and [JSON.parse] is not called. *)
Theorem empty_string_map_is_no_map (w : World) (loader : Loader) (content : string) :
  run w loader content (MapString EmptyString) = run w loader content NoMap.
Proof.
  destruct (test_leading_dot (context loader)) eqn:Hctx.
  { by rewrite !relative_context_error. }
  destruct (getOptions w loader) as [e|query] eqn:Hq.
  { unfold run, resolveUrlLoader. rewrite Hctx, Hq. by run_monad. }
  by rewrite !(early_error w loader content query _ Hctx Hq).
Qed.

(** ** The test configuration and the loader *)

Lemma prop_Object_assign (target source : JsObject) (k : string) :
  prop (Object_assign target source) k
  = match source !! k with Some v => v | None => prop target k end.
Proof.
  unfold prop, Object_assign. rewrite lookup_union.
  by destruct (source !! k), (target !! k).
Qed.

(** X6.  With [LOADER_JOIN] unset or empty, the options that the test
    configuration builds make the loader use the default join whatever
    [LOADER_OPTIONS] holds under [join]: [Object.assign] overwrites it with
    [undefined], and [defaults] then fills the default in. *)
Theorem config_without_join_uses_default (new_Function : string → JsVal)
    (loader : Loader) (LOADER_OPTIONS : JsObject) (LOADER_JOIN : option string) :
  default true (is_empty <$> LOADER_JOIN) = true →
  prop (legacy_options loader) "join" = JUndefined →
  prop (merge_options loader (Some (config_options new_Function LOADER_OPTIONS LOADER_JOIN)))
       "join" = defaultJoin.
Proof.
  intros Hjoin Hlegacy. rewrite prop_merge_options, Hlegacy.
  change (default ∅ (Some ?o)) with o.
  unfold config_options. rewrite prop_Object_assign, lookup_singleton_eq.
  assert (match LOADER_JOIN with
          | Some code => if is_empty code then JUndefined else new_Function code
          | None => JUndefined
          end = JUndefined) as ->.
  { destruct LOADER_JOIN as [code|]; [|done]. cbn in Hjoin. by rewrite Hjoin. }
  by destruct (default_option_values loader) as (-> & _).
Qed.

Lemma config_without_join_uses_default_witness :
  let loader := Demo.loader_with [] in
  prop (merge_options loader
          (Some (config_options (fun _ => JFun 7) {[ "join" := JStr "mine" ]} None)))
       "join" = defaultJoin.
Proof.
  intros loader.
  apply (config_without_join_uses_default (fun _ => JFun 7) loader {[ "join" := JStr "mine" ]} None);
    reflexivity.
Defined.

(** ** The error handler and the stack of an error *)

Lemma split_on_without (c : ascii) (s : string) :
  occurs c s = false → split_on c s = [s].
Proof.
  induction s as [|a s IH]; [done|]. cbn [occurs split_on].
  intros [Ha Hs]%orb_false_elim. by rewrite Ha, (IH Hs).
Qed.

Lemma split_on_with (c : ascii) (s : string) :
  occurs c s = true → ∃ p q rest, split_on c s = p :: q :: rest.
Proof.
  induction s as [|a s IH]; [done|]. cbn [occurs split_on].
  destruct (Ascii.eqb a c).
  - intros _. pose proof (split_on_nonempty c s).
    destruct (split_on c s) as [|q rest]; [done|]. eauto.
  - cbn [orb]. intros (p & q & rest & ->)%IH. eauto.
Qed.

Lemma details_of_short_stack (e : JsExn) :
  if has_short_stack e
  then ∃ e', exception_details e = inl e'
  else ∃ rest, exception_details e = inr rest.
Proof.
  destruct e as [s|message [stack|]| | |]; cbn; eauto.
  destruct (occurs newline stack) eqn:Hs; cbn.
  - destruct (split_on_with _ _ Hs) as (p & q & rest & ->). cbn. eauto.
  - rewrite (split_on_without _ _ Hs). cbn. eauto.
Qed.

(** X7.  The handler fails exactly on an [Error] that has no stack or a
    stack of one line: for such an exception it throws, emits nothing and
    returns no content, critical or not; for every other exception it
    reads the details, and a critical call emits one error and returns the
    content. *)
Theorem handler_fails_exactly_on_short_stacks (options : option JsObject)
    (content label : string) (exception : JsExn) (log : list Event) :
  if has_short_stack exception
  then ∃ e', ∀ isCritical,
         handleException options content label exception isCritical log = (inl e', log)
  else ∃ rest,
         handleException options content label exception true log
         = (inr content, log ++ [EmitError (format_message label rest)]).
Proof.
  pose proof (details_of_short_stack exception) as H.
  destruct (has_short_stack exception).
  - destruct H as [e' He]. exists e'. intros crit.
    by apply handleException_throws.
  - destruct H as [rest Hr]. exists rest.
    unfold handleException. run_monad. by rewrite Hr.
Qed.

(** ** What the endings show *)

Ltac not_in_log :=
  let Hin := fresh "Hin" in
  intros Hin;
  repeat (apply elem_of_cons in Hin as [Hin|Hin]; [discriminate|]);
  by apply elem_of_nil in Hin.

(** X8.  Whatever the loader returns synchronously is the content it was
    given; on such a call [async] has not been called and at most one
    diagnostic has been emitted. *)
Theorem synchronous_return_is_the_original_content (w : World) (loader : Loader)
    (content : string) (sourceMap : SourceMapArg) (c : string) (log : list Event) :
  run w loader content sourceMap = (inr (Returned c), log) →
  c = content ∧ (Async ∉ log) ∧ (length (List.filter is_diagnostic log) ≤ 1).
Proof.
  intros Hrun. pose proof (run_ending w loader content sourceMap) as H.
  rewrite Hrun in H.
  inversion H; subst; (split; [done|]);
    unfold severity_report; repeat case_match;
    (split; [not_in_log | cbn; lia]).
Qed.

Lemma synchronous_return_is_the_original_content_witness :
  let loader := Demo.loader_with [("engine", JStr "nope")] in
  let log := [Cacheable;
              EmitError (format_message "loader misconfiguration"
                           [dq "engine" +:+ " option is not valid"])] in
  run Demo.world loader Demo.css NoMap = (inr (Returned Demo.css), log)
  ∧ (Demo.css = Demo.css ∧ (Async ∉ log) ∧ (length (List.filter is_diagnostic log) ≤ 1)).
Proof.
  intros loader log.
  assert (run Demo.world loader Demo.css NoMap = (inr (Returned Demo.css), log)) as Hrun.
  { vm_compute. reflexivity. }
  split; [exact Hrun|].
  exact (synchronous_return_is_the_original_content Demo.world loader Demo.css NoMap
           Demo.css log Hrun).
Defined.

(** X9.  The callback is called only on a call that has reached the engine,
    after [cacheable] and [async]; its content is the content that the
    engine of this very call resolved to, or else, when the promise chain
    of this call failed, the content that the loader was given, without a
    map. *)
Theorem callback_follows_async (w : World) (loader : Loader)
    (content : string) (sourceMap : SourceMapArg)
    (c : string) (map : option SourceMap) (log : list Event) :
  run w loader content sourceMap = (inr (Delivered c map), log) →
  ∃ query path abs idx raised,
    starts_processing w loader sourceMap query path abs idx
    ∧ (∃ rest, log = [Cacheable; Async] ++ raised ++ rest)
    ∧ ((∃ reworked,
          engine_call w loader content (merge_options loader query) path abs idx
          = (raised, EngineResolves reworked)
          ∧ c = rw_content reworked)
       ∨ (c = content ∧ map = None
          ∧ ∃ e, chain_fails w loader content (merge_options loader query)
                   path abs idx raised e)).
Proof.
  intros Hrun. pose proof (run_ending w loader content sourceMap) as H.
  rewrite Hrun in H. inversion H; subst.
  - eexists _, _, _, _, _. split; [eassumption|]. split.
    + exists []. by rewrite app_nil_r.
    + left. eauto.
  - eexists _, _, _, _, _. split; [eassumption|]. split; [eauto|].
    right. eauto.
Qed.

Lemma callback_follows_async_witness :
  let loader := Demo.loader_with [("absolute", JBool true)] in
  let c := "a { background: url(/proj/src/img/x.png) }" in
  run Demo.world loader Demo.css (MapObject Demo.a_map)
  = (inr (Delivered c None), [Cacheable; Async])
  ∧ ∃ query path abs idx raised,
      starts_processing Demo.world loader (MapObject Demo.a_map) query path abs idx
      ∧ (∃ rest, [Cacheable; Async] = [Cacheable; Async] ++ raised ++ rest)
      ∧ ((∃ reworked,
            engine_call Demo.world loader Demo.css (merge_options loader query) path abs idx
            = (raised, EngineResolves reworked)
            ∧ c = rw_content reworked)
         ∨ (c = Demo.css ∧ @None SourceMap = None
            ∧ ∃ e, chain_fails Demo.world loader Demo.css (merge_options loader query)
                     path abs idx raised e)).
Proof.
  intros loader c.
  assert (run Demo.world loader Demo.css (MapObject Demo.a_map)
          = (inr (Delivered c None), [Cacheable; Async])) as Hrun.
  { vm_compute. reflexivity. }
  split; [exact Hrun|].
  exact (callback_follows_async Demo.world loader Demo.css (MapObject Demo.a_map)
           c None [Cacheable; Async] Hrun).
Defined.

(** X10.  The loader throws in four places only: [loaderUtils.getOptions]
    (nothing has been called on the loader); the [catch] of line 100, when
    the codec has thrown [undefined] or [null], whose [message] cannot be
    read, or a value whose message makes the handler fail (only
    [cacheable] has been called); the constructor of [SourceMapConsumer]
    on the adjusted map (only [cacheable] has been called); and the call
    of the engine of this call (after [cacheable] and [async]). *)
Theorem loader_throws_in_four_places (w : World) (loader : Loader)
    (content : string) (sourceMap : SourceMapArg) (e : JsExn) (log : list Event) :
  run w loader content sourceMap = (inl e, log) →
  test_leading_dot (context loader) = false
  ∧ ((getOptions w loader = inl e ∧ log = [])
     ∨ (∃ query m x,
          getOptions w loader = inr query
          ∧ rejected_early w (merge_options loader query) = false
          ∧ supplied_map w sourceMap = Some m
          ∧ adjustSourceMap w loader FormatAbsolute (Some m) = inl x
          ∧ codec_details x = inl e
          ∧ log = [Cacheable])
     ∨ (∃ query m a,
          getOptions w loader = inr query
          ∧ rejected_early w (merge_options loader query) = false
          ∧ supplied_map w sourceMap = Some m
          ∧ adjustSourceMap w loader FormatAbsolute (Some m) = inr a
          ∧ SourceMapConsumer_new w a = inl e
          ∧ log = [Cacheable])
     ∨ (∃ query path abs idx raised,
          starts_processing w loader sourceMap query path abs idx
          ∧ engine_call w loader content (merge_options loader query) path abs idx
            = (raised, EngineThrows e)
          ∧ log = [Cacheable; Async] ++ raised)).
Proof.
  intros Hrun. pose proof (run_ending w loader content sourceMap) as H.
  rewrite Hrun in H. inversion H; subst.
  - split; [done|]. by left.
  - split; [done|]. right. left. eexists _, _, _.
    repeat split; first [eassumption | reflexivity].
  - split; [done|]. right. right. left. eexists _, _, _.
    repeat split; first [eassumption | reflexivity].
  - match goal with Hs : starts_processing _ _ _ _ _ _ _ |- _ =>
      pose proof Hs as (Hctx & _) end.
    split; [done|]. right. right. right. eexists _, _, _, _, _.
    split; [eassumption|]. split; [eassumption|reflexivity].
Qed.

Lemma loader_throws_in_four_places_witness :
  let loader := Demo.loader_with [] in
  let e := TypeError "message" in
  run Cases.nullish_world loader Demo.css (MapObject Demo.a_map) = (inl e, [Cacheable])
  ∧ ∃ query m x,
      getOptions Cases.nullish_world loader = inr query
      ∧ rejected_early Cases.nullish_world (merge_options loader query) = false
      ∧ supplied_map Cases.nullish_world (MapObject Demo.a_map) = Some m
      ∧ adjustSourceMap Cases.nullish_world loader FormatAbsolute (Some m) = inl x
      ∧ codec_details x = inl e
      ∧ [Cacheable] = [Cacheable].
Proof.
  intros loader e.
  assert (run Cases.nullish_world loader Demo.css (MapObject Demo.a_map)
          = (inl e, [Cacheable])) as Hrun.
  { vm_compute. reflexivity. }
  split; [exact Hrun|].
  destruct (loader_throws_in_four_places Cases.nullish_world loader Demo.css
              (MapObject Demo.a_map) e [Cacheable] Hrun)
    as (_ & [[Hq _]|[Hcatch|[(query & m & a & _ & _ & _ & Ha & _)
                             |(query & path & abs & idx & raised & _ & _ & Hlog)]]]).
  - discriminate Hq.
  - exact Hcatch.
  - discriminate Ha.
  - discriminate Hlog.
Defined.

(** X11.  The callback is never called only when the promise chain of this
    very call meets an [Error] without a stack or with a stack of one
    line, from a rejection of its engine or from the codec on the map of
    its engine: then nothing is reported either. *)
Theorem callback_is_lost_on_short_stacks (w : World) (loader : Loader)
    (content : string) (sourceMap : SourceMapArg) (e' : JsExn) (log : list Event) :
  run w loader content sourceMap = (inr (Unhandled e'), log) →
  ∃ query path abs idx raised e,
    starts_processing w loader sourceMap query path abs idx
    ∧ chain_fails w loader content (merge_options loader query) path abs idx raised e
    ∧ has_short_stack e = true
    ∧ exception_details e = inl e'
    ∧ log = [Cacheable; Async] ++ raised.
Proof.
  intros Hrun. pose proof (run_ending w loader content sourceMap) as H.
  rewrite Hrun in H.
  inversion H as [| | | | | | | | | | |query path abs idx raised e e0 Hs Hf Hd]; subst.
  exists query, path, abs, idx, raised, e.
  split; [exact Hs|]. split; [exact Hf|]. split; [|by split].
  pose proof (details_of_short_stack e) as Hshort.
  destruct (has_short_stack e); [done|].
  destruct Hshort as [rest Hrest]. congruence.
Qed.

Lemma callback_is_lost_on_short_stacks_witness :
  let loader := Demo.loader_with [("engine", JStr "terse")] in
  run Demo.world loader Demo.css NoMap = (inr (Unhandled (TypeError "trim")), [Cacheable; Async])
  ∧ ∃ query path abs idx raised e,
      starts_processing Demo.world loader NoMap query path abs idx
      ∧ chain_fails Demo.world loader Demo.css (merge_options loader query) path abs idx raised e
      ∧ has_short_stack e = true
      ∧ exception_details e = inl (TypeError "trim")
      ∧ [Cacheable; Async] = [Cacheable; Async] ++ raised.
Proof.
  intros loader.
  assert (run Demo.world loader Demo.css NoMap
          = (inr (Unhandled (TypeError "trim")), [Cacheable; Async])) as Hrun.
  { vm_compute. reflexivity. }
  split; [exact Hrun|].
  exact (callback_is_lost_on_short_stacks Demo.world loader Demo.css NoMap
           (TypeError "trim") [Cacheable; Async] Hrun).
Defined.

(** X12.  A map reaches the callback only when the [sourceMap] option is
    truthy, and then it is what the codec makes, in the [sourceRelative]
    format, of the map that the engine of this very call resolved to,
    beside the content of that engine. *)
Theorem map_only_when_requested (w : World) (loader : Loader)
    (content : string) (sourceMap : SourceMapArg) (query : option JsObject)
    (c : string) (finalMap : SourceMap) (log : list Event) :
  getOptions w loader = inr query →
  run w loader content sourceMap = (inr (Delivered c (Some finalMap)), log) →
  truthy (prop (merge_options loader query) "sourceMap") = true
  ∧ ∃ path abs idx raised reworked,
      starts_processing w loader sourceMap query path abs idx
      ∧ engine_call w loader content (merge_options loader query) path abs idx
        = (raised, EngineResolves reworked)
      ∧ adjustSourceMap w loader FormatSourceRelative (rw_map reworked) = inr finalMap
      ∧ c = rw_content reworked
      ∧ log = [Cacheable; Async] ++ raised.
Proof.
  intros Hq Hrun. pose proof (run_ending w loader content sourceMap) as H.
  rewrite Hrun in H.
  inversion H as [| | | | | | | | |query0 path abs idx raised reworked map0 Hs Hcall Hmap| |];
    subst.
  pose proof Hs as (_ & Hq0 & _). rewrite Hq in Hq0. injection Hq0 as <-.
  destruct (truthy (prop (merge_options loader query) "sourceMap")); [|done].
  destruct Hmap as (fm & Hadj & [= <-]). split; [done|]. eauto 10.
Qed.

Lemma map_only_when_requested_witness :
  let loader := Demo.loader_with [("sourceMap", JBool true); ("absolute", JBool true)] in
  let c := "a { background: url(/proj/src/img/x.png) }" in
  run Demo.world loader Demo.css (MapString "{version:3}")
  = (inr (Delivered c (Some Demo.a_map)), [Cacheable; Async])
  ∧ truthy (prop (merge_options loader (loader_query loader)) "sourceMap") = true
  ∧ ∃ path abs idx raised reworked,
      starts_processing Demo.world loader (MapString "{version:3}") (loader_query loader)
        path abs idx
      ∧ engine_call Demo.world loader Demo.css (merge_options loader (loader_query loader))
          path abs idx
        = (raised, EngineResolves reworked)
      ∧ adjustSourceMap Demo.world loader FormatSourceRelative (rw_map reworked)
        = inr Demo.a_map
      ∧ c = rw_content reworked
      ∧ [Cacheable; Async] = [Cacheable; Async] ++ raised.
Proof.
  intros loader c.
  assert (run Demo.world loader Demo.css (MapString "{version:3}")
          = (inr (Delivered c (Some Demo.a_map)), [Cacheable; Async])) as Hrun.
  { vm_compute. reflexivity. }
  split; [exact Hrun|].
  exact (map_only_when_requested Demo.world loader Demo.css (MapString "{version:3}")
           (loader_query loader) c Demo.a_map [Cacheable; Async] eq_refl Hrun).
Defined.

(** X13.  When the engine resolves but the codec then throws on its map in
    [onSuccess], the rewritten content is dropped: the callback receives
    the content that the loader was given, without a map, and the failure
    is reported as "Error in CSS" by the severity rule. *)
Theorem failed_final_map_falls_back (w : World) (loader : Loader) (content : string)
    (sourceMap : SourceMapArg) (query : option JsObject) (path : string)
    (abs : option SourceMap) (idx : option SourceMapIndex)
    (raised : list Event) (reworked : Reworked) (e : JsExn) (rest : list string) :
  starts_processing w loader sourceMap query path abs idx →
  engine_call w loader content (merge_options loader query) path abs idx
  = (raised, EngineResolves reworked) →
  truthy (prop (merge_options loader query) "sourceMap") = true →
  adjustSourceMap w loader FormatSourceRelative (rw_map reworked) = inl e →
  exception_details e = inr rest →
  run w loader content sourceMap
  = (inr (Delivered content None),
     [Cacheable; Async] ++ raised
       ++ severity_report (merge_options loader query) (format_message "Error in CSS" rest)).
Proof.
  intros Hstart Hcall Hmap Hadj Hrest.
  rewrite (starts_processing_run _ _ _ _ query path abs idx) by done.
  rewrite (process_resolved _ _ _ _ _ _ _ raised reworked) by done.
  rewrite Hmap, Hadj.
  rewrite (onFailure_readable _ _ _ rest) by done.
  by rewrite app_assoc.
Qed.

Lemma failed_final_map_falls_back_witness :
  let loader := Demo.loader_with [("sourceMap", JBool true)] in
  run Cases.mapless_world loader Demo.css NoMap
  = (inr (Delivered Demo.css None),
     [Cacheable; Async;
      EmitWarning (format_message "Error in CSS" ["no source-map"; "at process"])]).
Proof.
  intros loader.
  assert (starts_processing Cases.mapless_world loader NoMap (loader_query loader)
            "/loader/lib/engine/rework.js" None None) as Hstart.
  { repeat split; reflexivity. }
  exact (failed_final_map_falls_back Cases.mapless_world loader Demo.css NoMap
           (loader_query loader) "/loader/lib/engine/rework.js" None None []
           {| rw_content := "a { }"; rw_map := None |}
           (ExnError "no source-map" (Demo.stack_of "Error: no source-map" "process"))
           ["no source-map"; "at process"]
           Hstart eq_refl eq_refl eq_refl eq_refl).
Defined.

(** the witness of [engine_rejection_is_soft]: a rejected promise, with
    [fail] and [silent] both set, is reported as an error *)
Lemma engine_rejection_is_soft_witness :
  let loader := Demo.loader_with [("engine", JStr "rejecting"); ("fail", JBool true);
                                  ("silent", JBool true)] in
  run Demo.world loader Demo.css NoMap
  = (inr (Delivered Demo.css None),
     [Cacheable; Async; EmitError (format_message "Error in CSS" ["missing '}'"])]).
Proof.
  intros loader.
  assert (starts_processing Demo.world loader NoMap (loader_query loader)
            "/loader/lib/engine/rejecting.js" None None) as Hstart.
  { repeat split; reflexivity. }
  exact (engine_rejection_is_soft Demo.world loader Demo.css NoMap (loader_query loader)
           "/loader/lib/engine/rejecting.js" None None []
           (ExnString "missing '}'") ["missing '}'"] Hstart eq_refl eq_refl).
Defined.

(** X15.  [cacheable] is called exactly on the calls that pass the checks
    of the configuration: the context is absolute, the options can be read
    and none of the three checks of lines 60 to 75 fails.  A call that is
    rejected before is never declared cacheable. *)
Theorem cacheable_iff_validated (w : World) (loader : Loader)
    (content : string) (sourceMap : SourceMapArg) :
  Cacheable ∈ (run w loader content sourceMap).2
  ↔ test_leading_dot (context loader) = false
    ∧ ∃ query, getOptions w loader = inr query
               ∧ rejected_early w (merge_options loader query) = false.
Proof.
  pose proof (run_ending w loader content sourceMap) as H.
  remember (run w loader content sourceMap) as r eqn:Hr. clear Hr.
  split.
  - intros Hin.
    destruct H as [ | | |query s e Hc Hq Hrej|query m e rest Hc Hq Hrej
                  |query m e thrown Hc Hq Hrej|query m a e Hc Hq Hrej
                  |query abs idx Hc Hq Hrej
                  |query path abs idx raised e Hs|query path abs idx raised reworked map Hs
                  |query path abs idx raised e rest Hs|query path abs idx raised e e' Hs];
      cbn in Hin;
      try (exfalso; revert Hin; not_in_log);
      try (destruct Hs as (Hc & Hq & Hrej & _));
      eauto.
  - intros (Hctx & query & Hq & Hrej).
    destruct H as [Hc|e Hc Hq'|query' message Hc Hq' Hrej'| | | | | | | | |];
      try congruence; cbn; by constructor.
Qed.
